(** * xPlist: the binary property-list primitives and the XML encoder

    A shallow embedding of [src/structs/binary.struct.ts],
    [src/components/binary.component.ts] and
    [src/components/plist.component.ts].

    - A JavaScript [number] is an IEEE-754 binary64 value, modelled by
      [spec_float] with [prec = 53], [emax = 1024]; ECMAScript has a single
      NaN, as [spec_float] does.
    - A [bigint], and every quantity the source keeps integer-valued (byte
      values, sizes, the 4-bit [type] and [info] fields, time values of
      valid dates), is a [Z].
    - A Node [Buffer] is a list of bytes, each a [Z] in [0, 256).
    - A function that can throw returns a [result].

    - A JavaScript string is the list of its UTF-16 code units.

    Part I holds the definitions, Parts II and III the properties. *)

From Stdlib Require Import String Ascii ZArith List Bool Lia.
From Stdlib Require Import DecimalString.
From Stdlib Require Import SpecFloat.
Import ListNotations.
Local Open Scope Z_scope.

(** * Part I: the program *)

(** ** Exceptions *)

Inductive JsError : Type :=
| TypeError (msg : string)
| RangeError (msg : string)
| Error (msg : string).

Inductive result (A : Type) : Type :=
| Ok (a : A)
| Throw (e : JsError).
Arguments Ok {A} a.
Arguments Throw {A} e.

Definition bind {A B : Type} (r : result A) (k : A -> result B) : result B :=
  match r with
  | Ok a => k a
  | Throw e => Throw e
  end.

Notation "'let*' x ':=' r 'in' k" := (bind r (fun x => k))
  (at level 10, x name, r at level 100, k at level 200).

Definition is_RangeError {A : Type} (r : result A) : bool :=
  match r with
  | Throw (RangeError _) => true
  | _ => false
  end.

(** ** JavaScript numbers *)

Module Number.

Definition t : Type := spec_float.

Definition prec : Z := 53.
Definition emax : Z := 1024.

(** The number an integer literal denotes (round to nearest, ties to even;
    exact up to [2^53]). *)
Definition of_Z (z : Z) : t := binary_normalize prec emax z 0 false.

Definition NaN : t := S754_nan.

Definition isFinite (x : t) : bool :=
  match x with
  | S754_zero _ | S754_finite _ _ _ => true
  | S754_infinity _ | S754_nan => false
  end.

(** [Number.isInteger]: finite and without fractional part. *)
Definition isInteger (x : t) : bool :=
  match x with
  | S754_zero _ => true
  | S754_finite _ m e =>
      if 0 <=? e then true else Z.pos m mod 2 ^ (- e) =? 0
  | S754_infinity _ | S754_nan => false
  end.

(** Truncation toward zero: [BigInt(x)] on an integer [x], and
    ToIntegerOrInfinity on a finite [x].  NaN gives 0; so do the
    infinities here, which every caller has excluded beforehand. *)
Definition truncate (x : t) : Z :=
  match x with
  | S754_finite s m e =>
      cond_Zopp s (if 0 <=? e then Z.pos m * 2 ^ e else Z.pos m / 2 ^ (- e))
  | _ => 0
  end.

(** The operators [-], [/] and [===] on numbers. *)
Definition sub (x y : t) : t := SFsub prec emax x y.
Definition div (x y : t) : t := SFdiv prec emax x y.
Definition strict_eq (x y : t) : bool := SFeqb x y.

End Number.

Module Math.

(** [Math.sqrt] *)
Definition sqrt (x : Number.t) : Number.t := SFsqrt Number.prec Number.emax x.

(** [Math.round]: the integral number closest to [x], the greater one on a
    tie, keeping the sign of [x] when the result is zero. *)
Definition round (x : Number.t) : Number.t :=
  match x with
  | S754_finite s m e =>
      if 0 <=? e then x
      else
        let n := (2 * cond_Zopp s (Z.pos m) + 2 ^ (- e)) / 2 ^ (- e + 1) in
        binary_normalize Number.prec Number.emax n 0 s
  | _ => x
  end.

End Math.

(** A number or a bigint. *)
Inductive numeric : Type :=
| Num (x : Number.t)
| Big (n : Z).

(** ** 32-bit integer operators

    [<<], [>>], [|] and [&] convert their operands with ToInt32; [<<] wraps
    its result to 32 bits. *)

Definition ToInt32 (z : Z) : Z := (z + 2 ^ 31) mod 2 ^ 32 - 2 ^ 31.

Definition js_shl (a b : Z) : Z := ToInt32 (Z.shiftl (ToInt32 a) (b mod 32)).
Definition js_sar (a b : Z) : Z := Z.shiftr (ToInt32 a) (b mod 32).
Definition js_or (a b : Z) : Z := Z.lor (ToInt32 a) (ToInt32 b).
Definition js_and (a b : Z) : Z := Z.land (ToInt32 a) (ToInt32 b).

(** ** Node's [Buffer]

    The read and write methods the source calls.  A write method checks the
    range of the value and throws [ERR_OUT_OF_RANGE] (a [RangeError])
    outside it; reading or writing past the end throws a [RangeError] too.
    The integer methods store the two's-complement image of the value, most
    significant byte first. *)

Definition Buffer : Type := list Z.

Definition out_of_range {A : Type} : result A :=
  Throw (RangeError "ERR_OUT_OF_RANGE").

(** The [n] low-order bytes of [z], most significant first. *)
Fixpoint be_bytes (n : nat) (z : Z) : Buffer :=
  match n with
  | O => []
  | S k => Z.land (Z.shiftr z (8 * Z.of_nat k)) 0xFF :: be_bytes k z
  end.

(** The unsigned number that a byte sequence spells, most significant
    byte first. *)
Definition be_value (b : Buffer) : Z :=
  fold_left (fun acc byte => acc * 256 + byte) b 0.

(** The [n] bytes of [b] from [offset] on. *)
Definition slice (b : Buffer) (offset : Z) (n : nat) : result Buffer :=
  if (offset <? 0) || (Z.of_nat (length b) <? offset + Z.of_nat n)
  then out_of_range
  else Ok (firstn n (skipn (Z.to_nat offset) b)).

(** Overwriting [length bytes] bytes of [b] from [offset] on. *)
Definition splice (b : Buffer) (offset : Z) (bytes : Buffer) : result Buffer :=
  if (offset <? 0) || (Z.of_nat (length b) <? offset + Z.of_nat (length bytes))
  then out_of_range
  else Ok (firstn (Z.to_nat offset) b ++ bytes
             ++ skipn (Z.to_nat offset + length bytes) b).

(** [buffer.constants.MAX_LENGTH] on a 64-bit host, the largest there
    is: no host allocates a longer buffer. *)
Definition MAX_LENGTH : Z := 2 ^ 53 - 1.

(** [Buffer.alloc(size)]: [size] zero bytes; a [RangeError] for a size
    outside [0 .. MAX_LENGTH].  The host is taken to have the memory for
    every size within (a host short of it throws a [RangeError] as well). *)
Definition Buffer_alloc (size : Z) : result Buffer :=
  if (size <? 0) || (size >? MAX_LENGTH)
  then out_of_range
  else Ok (repeat 0 (Z.to_nat size)).

(** [Buffer.from(array)]: every entry is reduced to a byte. *)
Definition Buffer_from (entries : list Z) : Buffer :=
  map (fun entry => Z.land entry 0xFF) entries.

(** [writeInt8], [writeInt16BE], [writeInt32BE], [writeBigInt64BE] for
    [width] 1, 2, 4, 8. *)
Definition writeIntBE (width : nat) (b : Buffer) (value : Z) (offset : Z)
  : result Buffer :=
  let half := 2 ^ (8 * Z.of_nat width - 1) in
  if (value <? - half) || (half - 1 <? value)
  then out_of_range
  else splice b offset (be_bytes width value).

(** [readInt8], [readInt16BE], [readInt32BE], [readBigInt64BE]. *)
Definition readIntBE (width : nat) (b : Buffer) (offset : Z) : result Z :=
  let* bytes := slice b offset width in
  let u := be_value bytes in
  let half := 2 ^ (8 * Z.of_nat width - 1) in
  Ok (if u <? half then u else u - 2 * half).

(** ** IEEE-754 interchange formats

    The bit image of a float with [prec] significand bits (the implicit one
    included) and infinities at exponent [emax]: sign, biased exponent,
    trailing significand.  [spec_float] has a single NaN, written here as
    the positive quiet NaN with an empty payload; a host writes the sign
    and payload of the NaN it holds, so no property below speaks of the
    bytes of a NaN. *)

Definition bits_of_float (prec emax : Z) (x : spec_float) : Z :=
  let mw := prec - 1 in
  let top := 2 * emax - 1 in
  let sign (s : bool) := if s then 2 ^ mw * (2 * emax) else 0 in
  match x with
  | S754_zero s => sign s
  | S754_infinity s => sign s + top * 2 ^ mw
  | S754_nan => top * 2 ^ mw + 2 ^ (mw - 1)
  | S754_finite s m e =>
      sign s +
      (if Z.pos m <? 2 ^ mw then Z.pos m
       else (e - emin prec emax + 1) * 2 ^ mw + (Z.pos m - 2 ^ mw))
  end.

Definition float_of_bits (prec emax : Z) (z : Z) : spec_float :=
  let mw := prec - 1 in
  let top := 2 * emax - 1 in
  let s := Z.odd (z / (2 ^ mw * (2 * emax))) in
  let ex := (z / 2 ^ mw) mod (2 * emax) in
  let mx := z mod 2 ^ mw in
  if ex =? 0 then
    match mx with
    | Z.pos m => S754_finite s m (emin prec emax)
    | _ => S754_zero s
    end
  else if ex =? top then
    (if mx =? 0 then S754_infinity s else S754_nan)
  else
    match mx + 2 ^ mw with
    | Z.pos m => S754_finite s m (ex + emin prec emax - 1)
    | _ => S754_nan
    end.

(** binary32, the element type of a [Float32Array]. *)
Module Float32.

Definition t : Type := spec_float.
Definition prec : Z := 24.
Definition emax : Z := 128.

(** Storing a number into a [Float32Array]: round to nearest, ties to
    even. *)
Definition of_number (x : Number.t) : t :=
  match x with
  | S754_finite s m e => binary_round prec emax s m e
  | _ => x
  end.

(** Reading it back: every binary32 value is a binary64 value. *)
Definition to_number (f : t) : Number.t :=
  match f with
  | S754_finite s m e => binary_round Number.prec Number.emax s m e
  | _ => f
  end.

End Float32.

Definition writeDoubleBE (b : Buffer) (value : Number.t) (offset : Z)
  : result Buffer :=
  splice b offset (be_bytes 8 (bits_of_float Number.prec Number.emax value)).

Definition readDoubleBE (b : Buffer) (offset : Z) : result Number.t :=
  let* bytes := slice b offset 8 in
  Ok (float_of_bits Number.prec Number.emax (be_value bytes)).

Definition writeFloatBE (b : Buffer) (value : Number.t) (offset : Z)
  : result Buffer :=
  splice b offset
    (be_bytes 4 (bits_of_float Float32.prec Float32.emax (Float32.of_number value))).

Definition readFloatBE (b : Buffer) (offset : Z) : result Number.t :=
  let* bytes := slice b offset 4 in
  Ok (Float32.to_number (float_of_bits Float32.prec Float32.emax (be_value bytes))).

(** ** Dates

    A [Date] holds a time value: milliseconds since 1970-01-01T00:00:00Z,
    an integer of magnitude at most 8.64e15, or NaN (an invalid date,
    [None]).  The arithmetic of MakeTime and MakeDate is on integers below
    [2^53] whenever the result passes TimeClip, hence exact; it is done in
    [Z]. *)

(** The host's time zone: the offset of local time from UTC, in
    milliseconds, at a UTC time value ([true]) or at a local one
    ([false]). *)
Record TimeZone : Type := { LocalTZA : Z -> bool -> Z }.

Definition UTC_zone : TimeZone := {| LocalTZA := fun _ _ => 0 |}.

Module Date.

Definition t : Type := option Z.

Definition msPerSecond : Z := 1000.
Definition msPerMinute : Z := 60000.
Definition msPerHour : Z := 3600000.
Definition msPerDay : Z := 86400000.

Definition Day (tv : Z) : Z := tv / msPerDay.
Definition HourFromTime (tv : Z) : Z := (tv / msPerHour) mod 24.
Definition MinFromTime (tv : Z) : Z := (tv / msPerMinute) mod 60.
Definition SecFromTime (tv : Z) : Z := (tv / msPerSecond) mod 60.
Definition msFromTime (tv : Z) : Z := tv mod msPerSecond.

Definition DayFromYear (y : Z) : Z :=
  365 * (y - 1970) + (y - 1969) / 4 - (y - 1901) / 100 + (y - 1601) / 400.

Definition InLeapYear (y : Z) : bool :=
  ((y mod 4 =? 0) && negb (y mod 100 =? 0)) || (y mod 400 =? 0).

Definition daysBeforeMonth (leap : bool) (month : Z) : Z :=
  let l := if leap then 1 else 0 in
  nth (Z.to_nat month)
    [0; 31; 59 + l; 90 + l; 120 + l; 151 + l; 181 + l; 212 + l; 243 + l;
     273 + l; 304 + l; 334 + l] 0.

Definition MakeDay (year month date : Z) : Z :=
  let ym := year + month / 12 in
  let mn := month mod 12 in
  DayFromYear ym + daysBeforeMonth (InLeapYear ym) mn + date - 1.

Definition TimeClip (time : Z) : t :=
  if Z.abs time >? 8640000000000000 then None else Some time.

(** [Date.UTC(year, month, date)] for a year outside 0..99 and a result
    within the range of time values. *)
Definition UTC (year month date : Z) : Z := MakeDay year month date * msPerDay.

(** [new Date(value)] for an integer-valued number. *)
Definition construct (value : Z) : t := TimeClip value.

Definition getTime (d : t) : Number.t :=
  match d with
  | Some tv => Number.of_Z tv
  | None => Number.NaN
  end.

Definition getUTCSeconds (d : t) : Number.t :=
  match d with
  | Some tv => Number.of_Z (SecFromTime tv)
  | None => Number.NaN
  end.

(** [setSeconds(sec)]: the seconds field of the local time is replaced by
    [sec] truncated to an integer (MakeTime applies ToIntegerOrInfinity);
    the milliseconds are kept. *)
Definition setSeconds (tz : TimeZone) (d : t) (sec : Number.t) : t :=
  match d with
  | None => None
  | Some tv =>
      if negb (Number.isFinite sec) then None
      else
        let tl := tv + LocalTZA tz tv true in
        let milli := msFromTime tl in
        let s := Number.truncate sec in
        let time := HourFromTime tl * msPerHour + MinFromTime tl * msPerMinute
                    + s * msPerSecond + milli in
        let date := Day tl * msPerDay + time in
        TimeClip (date - LocalTZA tz date false)
  end.

End Date.

(** ** binary.struct.ts *)

Definition REFERENCE_DATE : Z := Date.UTC 2001 0 1.

(** [isFloatPrecision]: the value is stored into a one-element
    [Float32Array], read back, and compared with [===]. *)
Definition isFloatPrecision (value : Number.t) : bool :=
  let float32_0 := Float32.to_number (Float32.of_number value) in
  Number.strict_eq value float32_0.

(** [encodeTypeInfoStruct]: [type] and [info] are integer-valued numbers. *)
Definition encodeTypeInfoStruct (type info : Z) : result Z :=
  if (type <? 0) || (type >? 15) || (info <? 0) || (info >? 15)
  then Throw (RangeError "Both type and info must be in the range 0-15.")
  else Ok (js_or (js_shl type 4) info).

Record TypeInfoInterface : Type := { type : Z; info : Z }.

Definition decodeTypeInfoStruct (value : Z) : TypeInfoInterface :=
  {| type := js_sar value 4; info := js_and value 0xF |}.

Definition decodeDateStruct (tz : TimeZone) (buffer : Buffer) (offset : Z)
  : result Date.t :=
  let* dateDouble := readDoubleBE buffer (offset + 1) in
  let baseDate := Date.construct REFERENCE_DATE in
  Ok (Date.setSeconds tz baseDate
        (Number.sub dateDouble (Date.getUTCSeconds baseDate))).

Definition encodeDateStruct (date : Date.t) : result Buffer :=
  let baseDate := Date.construct REFERENCE_DATE in
  let deltaTime := Number.sub (Date.getTime date) (Date.getTime baseDate) in
  let* buffer := Buffer_alloc 9 in
  let* tag := encodeTypeInfoStruct 0x3 0x3 in
  let* buffer := writeIntBE 1 buffer tag 0 in
  writeDoubleBE buffer (Number.div deltaTime (Number.of_Z 1000)) 1.

(** [Number::toString] of an integer of magnitude below [1e21]: its
    decimal numeral (from [1e21] on the notation is exponential). *)
Definition decimal (z : Z) : string := NilZero.string_of_int (Z.to_int z).

Definition unsupported_float_size {A : Type} (size : Z) : result A :=
  Throw (Error ("Unsupported float size: " ++ decimal size)).

Definition decodeFloatStruct (buffer : Buffer) (offset : Z) (size : Z)
  : result Number.t :=
  if size =? 4 then readFloatBE buffer offset
  else if size =? 8 then readDoubleBE buffer offset
  else unsupported_float_size size.

Definition encodeFloatStruct (value : Number.t) (size : Z) : result Buffer :=
  let* buffer := Buffer_alloc size in
  if size =? 4 then writeFloatBE buffer value 0
  else if size =? 8 then writeDoubleBE buffer value 0
  else unsupported_float_size size.

Definition unsupported_size {A : Type} : result A :=
  Throw (Error "Unsupported size. Supported sizes are 1, 2, 4, or 8 bytes.").

(** [encodeInt]: [value] is the integer that the number or bigint argument
    denotes; [Number(value)] and [BigInt(value)] leave it unchanged. *)
Definition encodeInt (value : Z) (size : Z) : result Buffer :=
  let* buffer := Buffer_alloc size in
  if size =? 1 then writeIntBE 1 buffer value 0
  else if size =? 2 then writeIntBE 2 buffer value 0
  else if size =? 4 then writeIntBE 4 buffer value 0
  else if size =? 8 then writeIntBE 8 buffer value 0
  else unsupported_size.

(** [decodeInt]: the integer read; the source returns it as a number for
    the sizes 1, 2, 4 and as a bigint for the size 8. *)
Definition decodeInt (buffer : Buffer) (size : Z) : result Z :=
  if size =? 1 then readIntBE 1 buffer 0
  else if size =? 2 then readIntBE 2 buffer 0
  else if size =? 4 then readIntBE 4 buffer 0
  else if size =? 8 then readIntBE 8 buffer 0
  else unsupported_size.

(** ** binary.component.ts *)

Definition calculateIntSize (value : numeric) : result Z :=
  let not_integer :=
    match value with
    | Big _ => false
    | Num x => negb (Number.isInteger x)
    end in
  if not_integer
  then Throw (TypeError "The input must be a valid integer or BigInt.")
  else
    let number := match value with Big n => n | Num x => Number.truncate x end in
    let absValue := if number <? 0 then - number else number in
    if absValue >? 0x7FFFFFFFFFFFFFFF
    then Throw (RangeError "The input exceeds the range of an 8-byte integer (Int64).")
    else if absValue <=? 0x7F then Ok 1
    else if absValue <=? 0x7FFF then Ok 2
    else if absValue <=? 0x7FFFFFFF then Ok 4
    else Ok 8.

(** The values [encodeType] and [encodeBinary] can be handed.  A string is
    its sequence of UTF-16 code units. *)
#[warnings="-register-all"]
Inductive JsValue : Type :=
| JNull
| JUndefined
| JBoolean (b : bool)
| JNumber (x : Number.t)
| JBigInt (n : Z)
| JString (units : list Z)
| JSymbol (description : list Z)
| JFunction (name : list Z)
| JDate (d : Date.t)
| JBuffer (b : Buffer)
| JArray (items : list JsValue)
| JSet (items : list JsValue)
| JObject (entries : list (list Z * JsValue)).

Definition typeof (data : JsValue) : string :=
  match data with
  | JUndefined => "undefined"
  | JBoolean _ => "boolean"
  | JNumber _ => "number"
  | JBigInt _ => "bigint"
  | JString _ => "string"
  | JSymbol _ => "symbol"
  | JFunction _ => "function"
  | JNull | JDate _ | JBuffer _ | JArray _ | JSet _ | JObject _ => "object"
  end.

(** [/^[\x00-\x7F]*$/.test(data)] *)
Definition is_ascii (units : list Z) : bool :=
  forallb (fun u => (0 <=? u) && (u <=? 0x7F)) units.

(** [Math.round(Math.sqrt(size - 1))], an integer. *)
Definition sizeInfo (size : Z) : Z :=
  Number.truncate (Math.round (Math.sqrt (Number.of_Z (size - 1)))).

Definition encodeType (data : JsValue) : result Buffer :=
  match data with
  | JNull => Ok (Buffer_from [0x00])
  | JBoolean false => Ok (Buffer_from [0x08])
  | JBoolean true => Ok (Buffer_from [0x09])
  | JNumber x =>
      if Number.isInteger x then
        let* size := calculateIntSize (Num x) in
        let info := sizeInfo size in
        let* type := encodeTypeInfoStruct 0x1 info in
        let* encode := encodeInt (Number.truncate x) size in
        Ok (Buffer_from (type :: encode))
      else
        let size := if isFloatPrecision x then 4 else 8 in
        let info := sizeInfo size in
        let* type := encodeTypeInfoStruct 0x2 info in
        let* encode := encodeFloatStruct x size in
        Ok (Buffer_from (type :: encode))
  | JDate d => encodeDateStruct d
  | JBuffer _ => Buffer_alloc 0
  | JString units =>
      if is_ascii units then Buffer_alloc 0 else Buffer_alloc 0
  | JArray _ => Buffer_alloc 0
  | JSet _ => Buffer_alloc 0
  | JObject _ => Buffer_alloc 0
  | JUndefined | JBigInt _ | JSymbol _ | JFunction _ =>
      Throw (Error "Unsupported type")
  end.

(** [encodeBinary] logs its argument to the console and allocates an empty
    buffer. *)
Definition Console : Type := list JsValue.

Definition encodeBinary (data : JsValue) (console : Console)
  : result Buffer * Console :=
  (Buffer_alloc 0, console ++ [data]).

(** ** Vocabulary of the properties *)

(** [v] is representable in [w] bytes of two's complement. *)
Definition fits (w v : Z) : Prop := - 2 ^ (8 * w - 1) <= v < 2 ^ (8 * w - 1).

Definition fitsb (w v : Z) : bool :=
  (- 2 ^ (8 * w - 1) <=? v) && (v <? 2 ^ (8 * w - 1)).

(** The unsigned number whose [w]-byte image is the two's-complement image
    of [v]. *)
Definition twos_complement (w v : Z) : Z := if v <? 0 then 2 ^ (8 * w) + v else v.

(** The spec's [integerWidth]: the least of the widths 1, 2, 4, 8 whose
    two's-complement range holds [v]; none when [v] is not a 64-bit signed
    integer. *)
Definition minimalWidth (v : Z) : option Z := find (fun w => fitsb w v) [1; 2; 4; 8].

Definition nibbles : list Z := [0; 1; 2; 3; 4; 5; 6; 7; 8; 9; 10; 11; 12; 13; 14; 15].

Definition high_nibble (byte : Z) : Z := Z.shiftr byte 4.
Definition low_nibble (byte : Z) : Z := Z.land byte 0xF.

(** On two nibbles the 32-bit operators neither wrap nor truncate, the
    packed value is a byte, and [decodeTypeInfoStruct] splits it again. *)
Definition pack_check (t i : Z) : bool :=
  let packed := js_or (js_shl t 4) i in
  (packed =? Z.lor (Z.shiftl t 4) i)
  && (packed =? 16 * t + i)
  && (0 <=? packed) && (packed <? 256)
  && (type (decodeTypeInfoStruct packed) =? t)
  && (info (decodeTypeInfoStruct packed) =? i).

(** What a [Float32Array] element gives back for a number stored in it. *)
Definition through_float32 (value : Number.t) : Number.t :=
  Float32.to_number (Float32.of_number value).

(** The three fields of a bit image, and the image they make up. *)
Definition sign_bit (s : bool) : Z := if s then 1 else 0.

Definition sign_of (x : spec_float) : bool :=
  match x with
  | S754_zero s | S754_infinity s | S754_finite s _ _ => s
  | S754_nan => false
  end.

Definition fields (prec emax : Z) (x : spec_float) : Z * Z :=
  match x with
  | S754_zero _ => (0, 0)
  | S754_infinity _ => (2 * emax - 1, 0)
  | S754_nan => (2 * emax - 1, 2 ^ (prec - 2))
  | S754_finite _ m e =>
      if Z.pos m <? 2 ^ (prec - 1) then (0, Z.pos m)
      else (e - emin prec emax + 1, Z.pos m - 2 ^ (prec - 1))
  end.

Definition assemble (prec emax : Z) (S E f : Z) : Z :=
  S * (2 ^ (prec - 1) * (2 * emax)) + E * 2 ^ (prec - 1) + f.

(** The payload of an encoded date: seconds since the reference date. *)
Definition secondsSinceReference (d : Date.t) : Number.t :=
  Number.div (Number.sub (Date.getTime d) (Number.of_Z REFERENCE_DATE))
             (Number.of_Z 1000).

(** A sample zone with daylight saving: one hour ahead of UTC, two hours
    from 2024-03-31T01:00Z to 2024-10-27T01:00Z.  A local time that a
    transition skips or repeats is read with the offset before the
    transition. *)
Definition summer_2024 : TimeZone :=
  {| LocalTZA := fun t isUTC =>
       let u := if isUTC then t else t - 2 * Date.msPerHour in
       if (Date.UTC 2024 2 31 + Date.msPerHour <=? u)
          && (u <? Date.UTC 2024 9 27 + Date.msPerHour)
       then 2 * Date.msPerHour else Date.msPerHour |}.

(** A file image per the spec's layout: the 8-byte header ["bplist00"]
    first, and room for the 32-byte trailer. *)
Definition bplist_header : Buffer := [0x62; 0x70; 0x6C; 0x69; 0x73; 0x74; 0x30; 0x30].

Definition is_file_image (b : Buffer) : Prop :=
  firstn 8 b = bplist_header /\ (8 + 32 <= length b)%nat.

(** [1.5] and [0.1]: the quotients [3/2] and [1/10] are correctly rounded,
    hence the doubles that the literals denote. *)
Definition one_and_half : Number.t := Number.div (Number.of_Z 3) (Number.of_Z 2).
Definition one_tenth : Number.t := Number.div (Number.of_Z 1) (Number.of_Z 10).

(** ** The scratch reader of binary.component.ts *)

(** [readUInt8], [readUInt16BE], [readUInt32BE], [readBigUInt64BE]. *)
Definition readUIntBE (width : nat) (b : Buffer) (offset : Z) : result Z :=
  let* bytes := slice b offset width in
  Ok (be_value bytes).

(** [removeBitsAndRead]: [buffer[0]] of an empty buffer is [undefined],
    which [>>] and [&] read as 0; [result] stays [undefined] ([None]) when
    no branch assigns it. *)
Definition removeBitsAndRead (buffer : Buffer) (size : Z)
  : result (Z * option Z) :=
  if negb (existsb (Z.eqb size) [1; 2; 4; 8])
  then Throw (Error "Only 1, 2, 4, or 8 bits can be removed.")
  else
    let firstByte := nth 0 buffer 0 in
    let mask := 0xF in
    let extractedBits := js_and (js_sar firstByte 4) mask in
    let modifiedFirstByte := js_and firstByte 0xF in
    let modifiedBuffer := Buffer_from (modifiedFirstByte :: skipn 1 buffer) in
    let* result :=
      if size =? 1 then let* r := readUIntBE 1 modifiedBuffer 0 in Ok (Some r)
      else if size =? 2 then let* r := readUIntBE 2 modifiedBuffer 0 in Ok (Some r)
      else if size =? 4 then let* r := readUIntBE 4 modifiedBuffer 0 in Ok (Some r)
      else if size =? 8 then let* r := readUIntBE 8 modifiedBuffer 0 in Ok (Some r)
      else Ok None in
    Ok (extractedBits, result).

(** ** plist.component.ts: the XML encoder

    A JavaScript string is its sequence of UTF-16 code units. *)

Definition JsString : Type := list Z.

(** The code units of an ASCII literal. *)
Definition units (s : string) : JsString :=
  map (fun c => Z.of_N (Ascii.N_of_ascii c)) (list_ascii_of_string s).

(** The literal between double quotes. *)
Definition quoted (s : string) : JsString := [34] ++ units s ++ [34].

(** What [parseTag] is handed as [value]. *)
Inductive TagValue : Type :=
| TBoolean (b : bool)
| TNumber (x : Number.t)
| TString (s : JsString).

Section Plist.

(** The platform's [Number::toString] and [buffer.toString('base64')]. *)
Variable Number_toString : Number.t -> JsString.
Variable base64 : Buffer -> JsString.

Definition parseTag (tag : JsString) (value : TagValue) : JsString :=
  match value with
  | TBoolean b => if b then units "<true/>" else units "<false/>"
  | TNumber x =>
      units "<" ++ tag ++ units ">" ++ Number_toString x
        ++ units "</" ++ tag ++ units ">"
  | TString s =>
      units "<" ++ tag ++ units ">" ++ s ++ units "</" ++ tag ++ units ">"
  end.

(** [encodeValue]: the tests run in the source's order (string, number,
    boolean, Buffer, Array, [typeof value === 'object']).  [null] passes
    the last one and [Object.entries(null)] throws a [TypeError]; a Date or
    a Set has no enumerable property of its own.  The entries of an object
    are listed in property order. *)
Fixpoint encodeValue (value : JsValue) : result JsString :=
  match value with
  | JString s => Ok (parseTag (units "string") (TString s))
  | JNumber x =>
      Ok (parseTag (if Number.isInteger x then units "integer" else units "real")
            (TNumber x))
  | JBoolean b => Ok (parseTag (units EmptyString) (TBoolean b))
  | JBuffer b => Ok (parseTag (units "data") (TString (base64 b)))
  | JArray items =>
      let* parts :=
        (fix map_items (l : list JsValue) : result (list JsString) :=
           match l with
           | [] => Ok []
           | item :: l' =>
               let* part := encodeValue item in
               let* parts := map_items l' in
               Ok (part :: parts)
           end) items in
      Ok (parseTag (units "array") (TString (concat parts)))
  | JObject entries =>
      let* parts :=
        (fix map_entries (l : list (JsString * JsValue)) : result (list JsString) :=
           match l with
           | [] => Ok []
           | (key, val) :: l' =>
               let* encoded := encodeValue val in
               let* parts := map_entries l' in
               Ok ((units "<key>" ++ key ++ units "</key>" ++ encoded) :: parts)
           end) entries in
      Ok (parseTag (units "dict") (TString (concat parts)))
  | JDate _ | JSet _ => Ok (parseTag (units "dict") (TString (concat [])))
  | JNull => Throw (TypeError "Cannot convert undefined or null to object")
  | JUndefined | JBigInt _ | JSymbol _ | JFunction _ =>
      Throw (Error ("Unsupported data type: " ++ typeof value))
  end.

Definition encodePlist (value : JsValue) : result JsString :=
  match value with
  | JNull => Throw (Error "Input must be a valid JavaScript object.")
  | _ =>
      let xmlVersion :=
        units "<?xml version=" ++ quoted "1.0" ++ units " encoding="
          ++ quoted "UTF-8" ++ units "?>" in
      let doctype :=
        units "<!DOCTYPE plist PUBLIC " ++ quoted "-//Apple//DTD PLIST 1.0//EN"
          ++ units " " ++ quoted "http://www.apple.com/DTDs/PropertyList-1.0.dtd"
          ++ units ">" in
      let plistVersion := units "<plist version=" ++ quoted "1.0" ++ units ">" in
      let* body := encodeValue value in
      Ok (xmlVersion ++ doctype ++ plistVersion ++ body ++ units "</plist>")
  end.

End Plist.

(** ** Vocabulary of the further properties *)

Definition byte_values : list Z := map Z.of_nat (seq 0 256).

(** On a byte, [decodeTypeInfoStruct] yields two nibbles which
    [encodeTypeInfoStruct] packs into the byte again. *)
Definition unpack_check (byte : Z) : bool :=
  let ti := decodeTypeInfoStruct byte in
  (0 <=? type ti) && (type ti <=? 15) && (0 <=? info ti) && (info ti <=? 15)
  && match encodeTypeInfoStruct (type ti) (info ti) with
     | Ok packed => packed =? byte
     | Throw _ => false
     end.

(** On a byte, the 32-bit operators of [removeBitsAndRead] are division
    and remainder by 16. *)
Definition nibble_split_check (b : Z) : bool :=
  let hi := js_and (js_sar b 4) 0xF in
  let lo := js_and b 0xF in
  (hi =? b / 16) && (lo =? b mod 16) && (Z.land lo 0xFF =? lo).

(** The integer a number or bigint denotes. *)
Definition integerValue (value : numeric) : Z :=
  match value with Big n => n | Num x => Number.truncate x end.

(** The kind that the tag of an encoded value announces. *)
Definition kind (data : JsValue) : Z :=
  match data with
  | JNumber x => if Number.isInteger x then 1 else 2
  | JDate _ => 3
  | _ => 0
  end.

(** The float of precision [prec] that holds the positive integer [B]:
    the mantissa is [B] shifted up to [prec] digits. *)
Definition normal_of_Z (prec : Z) (s : bool) (B : Z) : spec_float :=
  S754_finite s (Z.to_pos (B * 2 ^ (prec - Zdigits2 B))) (Zdigits2 B - prec).

(** A host whose local time is always [offset] milliseconds ahead of UTC. *)
Definition fixed_zone (offset : Z) : TimeZone := {| LocalTZA := fun _ _ => offset |}.

(** The time value of a [Date] is within the range of TimeClip or NaN. *)
Definition valid_date (d : Date.t) : Prop :=
  match d with
  | Some tv => Z.abs tv <= 8640000000000000
  | None => True
  end.

Definition on_whole_second (d : Date.t) : Prop :=
  match d with
  | Some tv => tv mod 1000 = 0
  | None => True
  end.

(** The values [encodeValue] has a tag for, at every depth. *)
Fixpoint supported (value : JsValue) : bool :=
  match value with
  | JString _ | JNumber _ | JBoolean _ | JBuffer _ | JDate _ | JSet _ => true
  | JArray items => forallb supported items
  | JObject entries => forallb (fun entry => supported (snd entry)) entries
  | JNull | JUndefined | JBigInt _ | JSymbol _ | JFunction _ => false
  end.

(** The part of a value at which [encodeValue] stops: the first one, in
    the order of the traversal, that has no tag.  The elements of a set
    are not visited. *)
Fixpoint first_unsupported (value : JsValue) : option JsValue :=
  match value with
  | JString _ | JNumber _ | JBoolean _ | JBuffer _ | JDate _ | JSet _ => None
  | JArray items =>
      (fix first (l : list JsValue) : option JsValue :=
         match l with
         | [] => None
         | item :: l' =>
             match first_unsupported item with
             | Some part => Some part
             | None => first l'
             end
         end) items
  | JObject entries =>
      (fix first (l : list (list Z * JsValue)) : option JsValue :=
         match l with
         | [] => None
         | (_, val) :: l' =>
             match first_unsupported val with
             | Some part => Some part
             | None => first l'
             end
         end) entries
  | JNull | JUndefined | JBigInt _ | JSymbol _ | JFunction _ => Some value
  end.

(** [part] is [value], or lies in it below arrays and objects. *)
Inductive part_of (part : JsValue) : JsValue -> Prop :=
| part_self : part_of part part
| part_item (items : list JsValue) (item : JsValue) :
    In item items -> part_of part item -> part_of part (JArray items)
| part_entry (entries : list (list Z * JsValue)) (key : list Z) (val : JsValue) :
    In (key, val) entries -> part_of part val -> part_of part (JObject entries).

(** What [encodeValue] throws at a part without a tag: for [null] the
    [TypeError] of [Object.entries], whose message is the engine's; for
    the others the [Error] that names their [typeof]. *)
Definition part_error (part : JsValue) (e : JsError) : Prop :=
  match part with
  | JNull => exists msg, e = TypeError msg
  | _ => e = Error ("Unsupported data type: " ++ typeof part)
  end.

(** What precedes the encoded value in a plist document. *)
Definition plist_prolog : JsString :=
  units "<?xml version=" ++ quoted "1.0" ++ units " encoding=" ++ quoted "UTF-8"
    ++ units "?>"
    ++ units "<!DOCTYPE plist PUBLIC " ++ quoted "-//Apple//DTD PLIST 1.0//EN"
    ++ units " " ++ quoted "http://www.apple.com/DTDs/PropertyList-1.0.dtd"
    ++ units ">"
    ++ units "<plist version=" ++ quoted "1.0" ++ units ">".

(** Induction on a value whose arrays, sets and objects hold values. *)
Section JsValue_induction.

Variable P : JsValue -> Prop.
Hypothesis HNull : P JNull.
Hypothesis HUndefined : P JUndefined.
Hypothesis HBoolean : forall b, P (JBoolean b).
Hypothesis HNumber : forall x, P (JNumber x).
Hypothesis HBigInt : forall n, P (JBigInt n).
Hypothesis HString : forall s, P (JString s).
Hypothesis HSymbol : forall d, P (JSymbol d).
Hypothesis HFunction : forall n, P (JFunction n).
Hypothesis HDate : forall d, P (JDate d).
Hypothesis HBuffer : forall b, P (JBuffer b).
Hypothesis HArray : forall items, Forall P items -> P (JArray items).
Hypothesis HSet : forall items, Forall P items -> P (JSet items).
Hypothesis HObject :
  forall entries, Forall (fun entry => P (snd entry)) entries -> P (JObject entries).

Fixpoint JsValue_nested_ind (v : JsValue) : P v :=
  match v with
  | JNull => HNull
  | JUndefined => HUndefined
  | JBoolean b => HBoolean b
  | JNumber x => HNumber x
  | JBigInt n => HBigInt n
  | JString s => HString s
  | JSymbol d => HSymbol d
  | JFunction n => HFunction n
  | JDate d => HDate d
  | JBuffer b => HBuffer b
  | JArray items =>
      HArray items
        ((fix all (l : list JsValue) : Forall P l :=
            match l with
            | [] => Forall_nil P
            | x :: l' => Forall_cons x (JsValue_nested_ind x) (all l')
            end) items)
  | JSet items =>
      HSet items
        ((fix all (l : list JsValue) : Forall P l :=
            match l with
            | [] => Forall_nil P
            | x :: l' => Forall_cons x (JsValue_nested_ind x) (all l')
            end) items)
  | JObject entries =>
      HObject entries
        ((fix all (l : list (list Z * JsValue))
            : Forall (fun entry => P (snd entry)) l :=
            match l with
            | [] => Forall_nil _
            | (k, x) :: l' =>
                @Forall_cons _ (fun entry => P (snd entry)) (k, x) l'
                  (JsValue_nested_ind x) (all l')
            end) entries)
  end.

End JsValue_induction.

(** * Part II: properties *)

Example one_and_half_bits :
  be_bytes 8 (bits_of_float Number.prec Number.emax one_and_half)
  = [0x3F; 0xF8; 0; 0; 0; 0; 0; 0].
Proof. vm_compute. reflexivity. Qed.

Example one_tenth_bits :
  be_bytes 8 (bits_of_float Number.prec Number.emax one_tenth)
  = [0x3F; 0xB9; 0x99; 0x99; 0x99; 0x99; 0x99; 0x9A].
Proof. vm_compute. reflexivity. Qed.

Example one_tenth_single_bits :
  be_bytes 4 (bits_of_float Float32.prec Float32.emax (Float32.of_number one_tenth))
  = [0x3D; 0xCC; 0xCC; 0xCD].
Proof. vm_compute. reflexivity. Qed.

Example REFERENCE_DATE_value : REFERENCE_DATE = 978307200000.
Proof. vm_compute. reflexivity. Qed.

(** ** Bytes *)

Lemma be_bytes_length (n : nat) (z : Z) : length (be_bytes n z) = n.
Proof. induction n as [|k IH]; simpl; [reflexivity | now rewrite IH]. Qed.

Lemma land_byte (z : Z) : Z.land z 0xFF = z mod 256.
Proof. change 0xFF with (Z.ones 8). rewrite Z.land_ones by lia. reflexivity. Qed.

Lemma be_bytes_range (n : nat) (z : Z) :
  Forall (fun b => 0 <= b < 256) (be_bytes n z).
Proof.
  induction n as [|k IH]; simpl; constructor; [|exact IH].
  rewrite land_byte. apply Z.mod_pos_bound. lia.
Qed.

Lemma fold_be_shift (l : Buffer) (a : Z) :
  fold_left (fun acc byte => acc * 256 + byte) l a
  = a * 256 ^ Z.of_nat (length l) + be_value l.
Proof.
  unfold be_value. revert a.
  induction l as [|b l IH]; intros a.
  - simpl. lia.
  - cbn [fold_left length]. rewrite IH, (IH (0 * 256 + b)).
    rewrite Nat2Z.inj_succ, Z.pow_succ_r by lia. ring.
Qed.

Lemma be_value_cons (b : Z) (l : Buffer) :
  be_value (b :: l) = b * 256 ^ Z.of_nat (length l) + be_value l.
Proof.
  unfold be_value at 1. cbn [fold_left]. rewrite fold_be_shift. ring.
Qed.

Lemma pow256 (k : Z) : 0 <= k -> 256 ^ k = 2 ^ (8 * k).
Proof. intros Hk. change 256 with (2 ^ 8). now rewrite <- Z.pow_mul_r by lia. Qed.

(** Reading back what [be_bytes] laid out gives the value modulo
    [2^(8n)]. *)
Lemma be_value_be_bytes (n : nat) (z : Z) :
  be_value (be_bytes n z) = z mod 2 ^ (8 * Z.of_nat n).
Proof.
  induction n as [|k IH].
  - simpl. now rewrite Z.mod_1_r.
  - cbn [be_bytes]. rewrite be_value_cons, be_bytes_length, IH.
    rewrite land_byte, Z.shiftr_div_pow2 by lia.
    rewrite pow256 by lia.
    replace (8 * Z.of_nat (S k)) with (8 * Z.of_nat k + 8) by lia.
    rewrite Z.pow_add_r by lia.
    rewrite Z.rem_mul_r by lia.
    change (2 ^ 8) with 256. ring.
Qed.

Lemma Buffer_from_be_bytes (n : nat) (z : Z) :
  Buffer_from (be_bytes n z) = be_bytes n z.
Proof.
  unfold Buffer_from.
  induction n as [|k IH]; simpl; [reflexivity|].
  rewrite IH. f_equal.
  rewrite <- Z.land_assoc. reflexivity.
Qed.

Lemma splice_whole (b bytes : Buffer) :
  length bytes = length b -> splice b 0 bytes = Ok bytes.
Proof.
  intros Hlen. unfold splice.
  replace ((0 <? 0) || (Z.of_nat (length b) <? 0 + Z.of_nat (length bytes)))
    with false.
  - simpl. rewrite Hlen, skipn_all. now rewrite app_nil_r.
  - symmetry. apply orb_false_intro; [reflexivity|].
    apply Z.ltb_ge. lia.
Qed.

Lemma slice_whole (b : Buffer) :
  slice b 0 (length b) = Ok b.
Proof.
  unfold slice.
  replace ((0 <? 0) || (Z.of_nat (length b) <? 0 + Z.of_nat (length b)))
    with false.
  - simpl. now rewrite firstn_all.
  - symmetry. apply orb_false_intro; [reflexivity|].
    apply Z.ltb_ge. lia.
Qed.

(** ** Integers: [encodeInt] and [decodeInt] *)

Lemma twos_complement_mod (w v : Z) :
  0 < w -> fits w v -> v mod 2 ^ (8 * w) = twos_complement w v.
Proof.
  unfold fits, twos_complement. intros Hw Hv.
  assert (Hp : 2 ^ (8 * w) = 2 * 2 ^ (8 * w - 1)).
  { rewrite <- Z.pow_succ_r by lia. f_equal. lia. }
  destruct (v <? 0) eqn:Hs.
  - apply Z.ltb_lt in Hs.
    symmetry. apply Z.mod_unique with (q := -1); lia.
  - apply Z.ltb_ge in Hs. apply Z.mod_small. lia.
Qed.

Lemma writeIntBE_whole (n : nat) (b : Buffer) (v : Z) :
  length b = n -> fits (Z.of_nat n) v ->
  writeIntBE n b v 0 = Ok (be_bytes n v).
Proof.
  unfold fits, writeIntBE. intros Hlen Hv.
  replace ((v <? - 2 ^ (8 * Z.of_nat n - 1)) || (2 ^ (8 * Z.of_nat n - 1) - 1 <? v))
    with false.
  - apply splice_whole. now rewrite be_bytes_length.
  - symmetry. apply orb_false_intro; apply Z.ltb_ge; lia.
Qed.

Lemma writeIntBE_out_of_range (n : nat) (b : Buffer) (v : Z) :
  ~ fits (Z.of_nat n) v -> writeIntBE n b v 0 = out_of_range.
Proof.
  unfold fits, writeIntBE. intros Hv.
  destruct (v <? - 2 ^ (8 * Z.of_nat n - 1)) eqn:Hlo; [reflexivity|].
  destruct (2 ^ (8 * Z.of_nat n - 1) - 1 <? v) eqn:Hhi; [reflexivity|].
  apply Z.ltb_ge in Hlo, Hhi. lia.
Qed.

Lemma readIntBE_be_bytes (n : nat) (v : Z) :
  (0 < n)%nat -> fits (Z.of_nat n) v ->
  readIntBE n (be_bytes n v) 0 = Ok v.
Proof.
  intros Hn Hv. unfold readIntBE.
  pose proof (slice_whole (be_bytes n v)) as Hs.
  rewrite be_bytes_length in Hs. rewrite Hs. cbn [bind].
  rewrite be_value_be_bytes, twos_complement_mod by (lia || assumption).
  unfold fits, twos_complement in *.
  assert (Hp : 2 ^ (8 * Z.of_nat n) = 2 * 2 ^ (8 * Z.of_nat n - 1)).
  { rewrite <- Z.pow_succ_r by lia. f_equal. lia. }
  f_equal.
  destruct (v <? 0) eqn:Hneg.
  - apply Z.ltb_lt in Hneg.
    destruct (_ <? _) eqn:Hc; [apply Z.ltb_lt in Hc; lia | lia].
  - apply Z.ltb_ge in Hneg.
    destruct (_ <? _) eqn:Hc; [reflexivity | apply Z.ltb_ge in Hc; lia].
Qed.

Lemma Buffer_alloc_length (n : nat) :
  Z.of_nat n <= MAX_LENGTH ->
  exists b, Buffer_alloc (Z.of_nat n) = Ok b /\ length b = n.
Proof.
  intros Hmax. unfold Buffer_alloc.
  destruct (Z.of_nat n <? 0) eqn:Hn; [apply Z.ltb_lt in Hn; lia|].
  destruct (Z.gtb_spec (Z.of_nat n) MAX_LENGTH) as [Hgt|_]; [lia|].
  eexists. split; [reflexivity|]. now rewrite repeat_length, Nat2Z.id.
Qed.

Lemma width_below_MAX_LENGTH (n : nat) :
  In n [1; 2; 4; 8]%nat -> Z.of_nat n <= MAX_LENGTH.
Proof.
  intros Hn. simpl in Hn.
  destruct Hn as [<-|[<-|[<-|[<-|[]]]]]; discriminate.
Qed.

(** [Buffer.alloc] throws on the sizes outside [0 .. MAX_LENGTH], and
    what it throws is a [RangeError]. *)
Lemma Buffer_alloc_rejects (size : Z) :
  size < 0 \/ MAX_LENGTH < size -> Buffer_alloc size = out_of_range.
Proof.
  intros H. unfold Buffer_alloc.
  destruct (Z.ltb_spec size 0), (Z.gtb_spec size MAX_LENGTH);
    try reflexivity; lia.
Qed.

Lemma Buffer_alloc_throws (size : Z) (e : JsError) :
  Buffer_alloc size = Throw e ->
  is_RangeError (Buffer_alloc size) = true /\ (size < 0 \/ MAX_LENGTH < size).
Proof.
  unfold Buffer_alloc.
  destruct (Z.ltb_spec size 0), (Z.gtb_spec size MAX_LENGTH); cbn [orb];
    try discriminate; intros _; (split; [reflexivity | lia]).
Qed.

Lemma width_of_nat (w : Z) :
  In w [1; 2; 4; 8] -> exists n, In n [1; 2; 4; 8]%nat /\ w = Z.of_nat n.
Proof.
  intros Hw. simpl in Hw.
  destruct Hw as [<-|[<-|[<-|[<-|[]]]]];
    [exists 1%nat | exists 2%nat | exists 4%nat | exists 8%nat];
    simpl; auto 10.
Qed.

(** The four supported sizes, with the width each one selects. *)
Lemma encodeInt_width (n : nat) (v : Z) :
  In n [1; 2; 4; 8]%nat -> fits (Z.of_nat n) v ->
  encodeInt v (Z.of_nat n) = Ok (be_bytes n v).
Proof.
  intros Hn Hv. unfold encodeInt.
  destruct (Buffer_alloc_length n (width_below_MAX_LENGTH n Hn)) as (b & -> & Hlen).
  cbn [bind].
  simpl in Hn.
  destruct Hn as [<-|[<-|[<-|[<-|[]]]]]; cbn [Z.of_nat Z.eqb Pos.of_succ_nat Pos.succ Pos.eqb];
    now apply writeIntBE_whole.
Qed.

(** Outside the range of the width, the write method throws. *)
Lemma encodeInt_out_of_range (n : nat) (v : Z) :
  In n [1; 2; 4; 8]%nat -> ~ fits (Z.of_nat n) v ->
  encodeInt v (Z.of_nat n) = out_of_range.
Proof.
  intros Hn Hv. unfold encodeInt.
  destruct (Buffer_alloc_length n (width_below_MAX_LENGTH n Hn)) as (b & -> & Hlen).
  cbn [bind].
  simpl in Hn.
  destruct Hn as [<-|[<-|[<-|[<-|[]]]]]; cbn [Z.of_nat Z.eqb Pos.of_succ_nat Pos.succ Pos.eqb];
    now apply writeIntBE_out_of_range.
Qed.

Lemma decodeInt_width (n : nat) (v : Z) :
  In n [1; 2; 4; 8]%nat -> fits (Z.of_nat n) v ->
  decodeInt (be_bytes n v) (Z.of_nat n) = Ok v.
Proof.
  intros Hn Hv. unfold decodeInt. simpl in Hn.
  destruct Hn as [<-|[<-|[<-|[<-|[]]]]]; cbn [Z.of_nat Z.eqb Pos.of_succ_nat Pos.succ Pos.eqb];
    apply readIntBE_be_bytes; (lia || assumption).
Qed.

(** C6, the spec's [encodeInteger]/[decodeInteger]: for a width [w] among
    1, 2, 4, 8 and an integer [v] representable in [w] bytes of two's
    complement, [encodeInt v w] returns [w] bytes which, read most
    significant byte first, spell the two's-complement image of [v], and
    [decodeInt] of those bytes at the same width returns [v]. *)
Theorem encodeInt_decodeInt_roundtrip (w v : Z) :
  In w [1; 2; 4; 8] -> fits w v ->
  exists bytes,
    encodeInt v w = Ok bytes
    /\ decodeInt bytes w = Ok v
    /\ Z.of_nat (length bytes) = w
    /\ Forall (fun b => 0 <= b < 256) bytes
    /\ be_value bytes = twos_complement w v.
Proof.
  intros Hw Hv.
  destruct (width_of_nat w Hw) as (n & Hn & ->).
  exists (be_bytes n v).
  split; [now apply encodeInt_width|].
  split; [now apply decodeInt_width|].
  split; [now rewrite be_bytes_length|].
  split; [apply be_bytes_range|].
  rewrite be_value_be_bytes.
  apply twos_complement_mod; [|assumption].
  simpl in Hn. destruct Hn as [<-|[<-|[<-|[<-|[]]]]]; lia.
Qed.

(** The theorem at [-2] in two bytes: the image is [FF FE]. *)
Lemma encodeInt_decodeInt_roundtrip_witness :
  In 2 [1; 2; 4; 8] /\ fits 2 (-2) /\
  exists bytes,
    encodeInt (-2) 2 = Ok bytes
    /\ decodeInt bytes 2 = Ok (-2)
    /\ Z.of_nat (length bytes) = 2
    /\ Forall (fun b => 0 <= b < 256) bytes
    /\ be_value bytes = twos_complement 2 (-2).
Proof.
  assert (Hin : In 2 [1; 2; 4; 8]) by (simpl; auto).
  assert (Hfit : fits 2 (-2)) by (unfold fits; simpl; lia).
  split; [exact Hin|]. split; [exact Hfit|].
  exact (encodeInt_decodeInt_roundtrip 2 (-2) Hin Hfit).
Defined.

Example encodeInt_minus_two : encodeInt (-2) 2 = Ok [0xFF; 0xFE].
Proof. vm_compute. reflexivity. Qed.

Example encodeInt_too_wide : encodeInt 128 1 = out_of_range.
Proof. vm_compute. reflexivity. Qed.

Example encodeInt_three_bytes : encodeInt 5 3 = unsupported_size.
Proof. vm_compute. reflexivity. Qed.

(** ** The type/info byte: [encodeTypeInfoStruct] *)

Lemma nibble_In (x : Z) : 0 <= x <= 15 -> In x nibbles.
Proof.
  intros Hx.
  assert (H : x = 0 \/ x = 1 \/ x = 2 \/ x = 3 \/ x = 4 \/ x = 5 \/ x = 6
              \/ x = 7 \/ x = 8 \/ x = 9 \/ x = 10 \/ x = 11 \/ x = 12
              \/ x = 13 \/ x = 14 \/ x = 15) by lia.
  unfold nibbles. simpl. intuition auto.
Qed.

Lemma pack_check_all :
  forallb (fun t => forallb (pack_check t) nibbles) nibbles = true.
Proof. vm_compute. reflexivity. Qed.

Lemma pack_check_nibbles (t i : Z) :
  0 <= t <= 15 -> 0 <= i <= 15 -> pack_check t i = true.
Proof.
  intros Ht Hi.
  pose proof pack_check_all as H.
  rewrite forallb_forall in H. specialize (H t (nibble_In t Ht)).
  rewrite forallb_forall in H. exact (H i (nibble_In i Hi)).
Qed.

Lemma encodeTypeInfoStruct_in_range (t i : Z) :
  0 <= t <= 15 -> 0 <= i <= 15 ->
  encodeTypeInfoStruct t i = Ok (Z.lor (Z.shiftl t 4) i)
  /\ Z.lor (Z.shiftl t 4) i = 16 * t + i
  /\ 0 <= Z.lor (Z.shiftl t 4) i < 256.
Proof.
  intros Ht Hi.
  pose proof (pack_check_nibbles t i Ht Hi) as Hc.
  unfold pack_check in Hc.
  repeat (apply andb_prop in Hc; destruct Hc as [Hc ?]).
  apply Z.eqb_eq in Hc.
  repeat match goal with
         | H : (_ =? _) = true |- _ => apply Z.eqb_eq in H
         | H : (_ <=? _) = true |- _ => apply Z.leb_le in H
         | H : (_ <? _) = true |- _ => apply Z.ltb_lt in H
         end.
  unfold encodeTypeInfoStruct.
  destruct (t <? 0) eqn:E1; [apply Z.ltb_lt in E1; lia|].
  destruct (t >? 15) eqn:E2; [rewrite Z.gtb_ltb in E2; apply Z.ltb_lt in E2; lia|].
  destruct (i <? 0) eqn:E3; [apply Z.ltb_lt in E3; lia|].
  destruct (i >? 15) eqn:E4; [rewrite Z.gtb_ltb in E4; apply Z.ltb_lt in E4; lia|].
  cbn [orb]. rewrite Hc. split; [reflexivity|]. split; lia.
Qed.

Lemma encodeTypeInfoStruct_throws (t i : Z) :
  is_RangeError (encodeTypeInfoStruct t i) = true
  <-> (t < 0 \/ 15 < t \/ i < 0 \/ 15 < i).
Proof.
  split.
  - intros H.
    destruct (Z_lt_dec t 0) as [|Ht0]; [auto|].
    destruct (Z_lt_dec 15 t) as [|Ht1]; [auto|].
    destruct (Z_lt_dec i 0) as [|Hi0]; [auto|].
    destruct (Z_lt_dec 15 i) as [|Hi1]; [auto|].
    destruct (encodeTypeInfoStruct_in_range t i) as [E _]; [lia | lia |].
    rewrite E in H. discriminate.
  - intros H. unfold encodeTypeInfoStruct.
    destruct (t <? 0) eqn:E1; [reflexivity|].
    destruct (t >? 15) eqn:E2; [reflexivity|].
    destruct (i <? 0) eqn:E3; [reflexivity|].
    destruct (i >? 15) eqn:E4; [reflexivity|].
    rewrite Z.gtb_ltb in E2, E4.
    apply Z.ltb_ge in E1, E2, E3, E4. lia.
Qed.

(** C8, the spec's [packTag]: [encodeTypeInfoStruct type info] throws a
    [RangeError] exactly when [type] or [info] lies outside 0..15; otherwise
    it returns [(type << 4) | info], a single byte. *)
Theorem encodeTypeInfoStruct_spec (type info : Z) :
  (is_RangeError (encodeTypeInfoStruct type info) = true
   <-> ~ (0 <= type <= 15 /\ 0 <= info <= 15))
  /\ (is_RangeError (encodeTypeInfoStruct type info) = false
      -> encodeTypeInfoStruct type info = Ok (Z.lor (Z.shiftl type 4) info)
         /\ 0 <= Z.lor (Z.shiftl type 4) info < 256).
Proof.
  split.
  - rewrite encodeTypeInfoStruct_throws. lia.
  - intros H.
    assert (Hin : 0 <= type <= 15 /\ 0 <= info <= 15).
    { destruct (is_RangeError (encodeTypeInfoStruct type info)) eqn:E;
        [discriminate|].
      assert (Hn : ~ (type < 0 \/ 15 < type \/ info < 0 \/ 15 < info)).
      { intros Hout. apply encodeTypeInfoStruct_throws in Hout. congruence. }
      lia. }
    destruct Hin as [Ht Hi].
    destruct (encodeTypeInfoStruct_in_range type info Ht Hi) as (E & _ & Hb).
    split; assumption.
Qed.

(** The theorem at [type = 5], [info = 3]: the byte is [0x53]. *)
Lemma encodeTypeInfoStruct_spec_witness :
  is_RangeError (encodeTypeInfoStruct 5 3) = false
  /\ encodeTypeInfoStruct 5 3 = Ok (Z.lor (Z.shiftl 5 4) 3)
  /\ 0 <= Z.lor (Z.shiftl 5 4) 3 < 256.
Proof.
  split; [reflexivity|].
  exact (proj2 (encodeTypeInfoStruct_spec 5 3) eq_refl).
Defined.

(** The spec's [unpackTag] undoes it. *)
Lemma decodeTypeInfoStruct_encodeTypeInfoStruct (t i : Z) :
  0 <= t <= 15 -> 0 <= i <= 15 ->
  exists byte, encodeTypeInfoStruct t i = Ok byte
               /\ decodeTypeInfoStruct byte = {| type := t; info := i |}.
Proof.
  intros Ht Hi.
  destruct (encodeTypeInfoStruct_in_range t i Ht Hi) as (E & _ & _).
  pose proof (pack_check_nibbles t i Ht Hi) as Hc.
  unfold pack_check in Hc.
  repeat (apply andb_prop in Hc; destruct Hc as [Hc ?]).
  repeat match goal with
         | H : (_ =? _) = true |- _ => apply Z.eqb_eq in H
         end.
  exists (Z.lor (Z.shiftl t 4) i). split; [exact E|].
  match goal with H : js_or _ _ = Z.lor _ _ |- _ => rewrite <- H end.
  unfold decodeTypeInfoStruct in *. simpl in *. congruence.
Qed.

Example encodeTypeInfoStruct_5_3 : encodeTypeInfoStruct 5 3 = Ok 83.
Proof. vm_compute. reflexivity. Qed.

(** ** [calculateIntSize] *)

Lemma fitsb_fits (w v : Z) : fitsb w v = true <-> fits w v.
Proof.
  unfold fitsb, fits. rewrite andb_true_iff, Z.leb_le, Z.ltb_lt. reflexivity.
Qed.

Ltac compare_cases :=
  repeat match goal with
         | |- context [?a >? ?b] => rewrite (Z.gtb_ltb a b)
         | |- context [?a <? ?b] => destruct (Z.ltb_spec a b)
         | |- context [?a <=? ?b] => destruct (Z.leb_spec a b)
         end.

(** A number that passes [Number.isInteger] is sized as the bigint of the
    same value. *)
Lemma calculateIntSize_number (x : Number.t) :
  Number.isInteger x = true ->
  calculateIntSize (Num x) = calculateIntSize (Big (Number.truncate x)).
Proof. intros H. unfold calculateIntSize. rewrite H. reflexivity. Qed.

Lemma calculateIntSize_not_integer (x : Number.t) :
  Number.isInteger x = false ->
  calculateIntSize (Num x)
  = Throw (TypeError "The input must be a valid integer or BigInt.").
Proof. intros H. unfold calculateIntSize. rewrite H. reflexivity. Qed.

(** What the code computes: the least width that holds the magnitude
    [|v|], and a [RangeError] when there is none. *)
Lemma calculateIntSize_magnitude (v : Z) :
  calculateIntSize (Big v) =
  match minimalWidth (Z.abs v) with
  | Some w => Ok w
  | None => Throw (RangeError "The input exceeds the range of an 8-byte integer (Int64).")
  end.
Proof.
  unfold calculateIntSize, minimalWidth, fitsb.
  cbn [negb find]. simpl Z.pow. simpl Z.opp.
  destruct (Z.ltb_spec v 0);
    compare_cases; cbn [andb]; try reflexivity; lia.
Qed.

(** The width returned always holds the input. *)
Lemma calculateIntSize_sound (v w : Z) :
  calculateIntSize (Big v) = Ok w -> In w [1; 2; 4; 8] /\ fits w v.
Proof.
  unfold calculateIntSize, fits. cbn [negb].
  destruct (Z.ltb_spec v 0);
    compare_cases; intros E; inversion E; subst; simpl; split; auto 10; lia.
Qed.

(** Away from the three negative boundaries, and within the open range
    [(-2^63, 2^63)], the width returned is the minimal one. *)
Lemma calculateIntSize_minimal (v : Z) :
  - 2 ^ 63 < v < 2 ^ 63 ->
  v <> - 2 ^ 7 -> v <> - 2 ^ 15 -> v <> - 2 ^ 31 ->
  exists w, calculateIntSize (Big v) = Ok w /\ minimalWidth v = Some w.
Proof.
  unfold calculateIntSize, minimalWidth, fitsb.
  cbn [negb find]. simpl Z.pow. simpl Z.opp. intros Hv H7 H15 H31.
  destruct (Z.ltb_spec v 0);
    compare_cases; cbn [andb]; try lia; eexists; split; reflexivity.
Qed.

(** C9: the width boundaries 127, 128, 32767 and 32768, handed over as
    numbers. *)
Theorem calculateIntSize_boundaries :
  calculateIntSize (Num (Number.of_Z 127)) = Ok 1
  /\ calculateIntSize (Num (Number.of_Z 128)) = Ok 2
  /\ calculateIntSize (Num (Number.of_Z 32767)) = Ok 2
  /\ calculateIntSize (Num (Number.of_Z 32768)) = Ok 4.
Proof. repeat split; vm_compute; reflexivity. Qed.

(** C4 fails at the negative ends of the ranges.  [-128], [-32768] and
    [-2^31] fit 1, 2 and 4 bytes, yet [calculateIntSize] answers 2, 4
    and 8; [-2^63] is a 64-bit signed integer, yet it throws a
    [RangeError].  The same holds when the value is a number. *)
Theorem calculateIntSize_negative_boundaries :
  (calculateIntSize (Big (- 2 ^ 7)) = Ok 2 /\ minimalWidth (- 2 ^ 7) = Some 1)
  /\ (calculateIntSize (Big (- 2 ^ 15)) = Ok 4 /\ minimalWidth (- 2 ^ 15) = Some 2)
  /\ (calculateIntSize (Big (- 2 ^ 31)) = Ok 8 /\ minimalWidth (- 2 ^ 31) = Some 4)
  /\ (is_RangeError (calculateIntSize (Big (- 2 ^ 63))) = true
      /\ minimalWidth (- 2 ^ 63) = Some 8)
  /\ calculateIntSize (Num (Number.of_Z (-128))) = Ok 2
  /\ is_RangeError (calculateIntSize (Num (Number.of_Z (- 2 ^ 63)))) = true.
Proof. repeat split; vm_compute; reflexivity. Qed.

Example calculateIntSize_examples :
  calculateIntSize (Big 2147483647) = Ok 4
  /\ calculateIntSize (Big 9223372036854775807) = Ok 8
  /\ is_RangeError (calculateIntSize (Big 9223372036854775808)) = true
  /\ calculateIntSize (Num one_and_half)
     = Throw (TypeError "The input must be a valid integer or BigInt.").
Proof. repeat split; vm_compute; reflexivity. Qed.

(** ** Reals: [isFloatPrecision], [encodeFloatStruct] *)

Lemma SFeqb_refl (x : spec_float) : x <> S754_nan -> SFeqb x x = true.
Proof.
  unfold SFeqb. destruct x as [s|s| |s m e]; intros Hx; simpl.
  - reflexivity.
  - now destruct s.
  - now contradiction Hx.
  - rewrite Z.compare_refl.
    change (Pos.compare_cont Eq m m) with (Pos.compare m m).
    rewrite Pos.compare_refl. now destruct s.
Qed.

(** [===] against a finite non-zero number holds for that number only. *)
Lemma SFeqb_finite (s : bool) (m : positive) (e : Z) (y : spec_float) :
  SFeqb (S754_finite s m e) y = true -> y = S754_finite s m e.
Proof.
  unfold SFeqb. destruct y as [s'|s'| |s' m' e']; simpl.
  - now destruct s.
  - now destruct s, s'.
  - discriminate.
  - change (Pos.compare_cont Eq m m') with (Pos.compare m m').
    destruct s, s'; try discriminate;
      destruct (Z.compare_spec e e') as [He|He|He]; try discriminate;
      destruct (Pos.compare_spec m m') as [Hm|Hm|Hm]; try discriminate;
      intros _; now subst.
Qed.

Lemma isFloatPrecision_true (value : Number.t) :
  isFloatPrecision value = true -> through_float32 value = value.
Proof.
  unfold isFloatPrecision, Number.strict_eq. fold (through_float32 value).
  destruct value as [s|s| |s m e].
  - reflexivity.
  - reflexivity.
  - reflexivity.
  - apply SFeqb_finite.
Qed.

Lemma isFloatPrecision_iff (value : Number.t) :
  value <> Number.NaN ->
  (isFloatPrecision value = true <-> through_float32 value = value).
Proof.
  intros Hnan. split.
  - apply isFloatPrecision_true.
  - intros H. unfold isFloatPrecision, Number.strict_eq.
    fold (through_float32 value). rewrite H. now apply SFeqb_refl.
Qed.

(** C5 as stated fails at NaN: the array gives NaN back, the one NaN there
    is, and [===] still answers false. *)
Lemma isFloatPrecision_NaN :
  ~ (isFloatPrecision Number.NaN = true
     <-> through_float32 Number.NaN = Number.NaN).
Proof.
  intros [_ H]. specialize (H eq_refl). discriminate.
Qed.

(** C5, amended: for every number other than NaN, [isFloatPrecision] is
    true exactly when the number comes back unchanged from a 32-bit float;
    for NaN it is false.  [isFloatPrecision(1.5)] is true and
    [isFloatPrecision(0.1)] is false. *)
Theorem isFloatPrecision_spec :
  (forall value : Number.t,
      value <> Number.NaN ->
      (isFloatPrecision value = true <-> through_float32 value = value))
  /\ isFloatPrecision Number.NaN = false
  /\ isFloatPrecision one_and_half = true
  /\ isFloatPrecision one_tenth = false.
Proof.
  split; [exact isFloatPrecision_iff|].
  repeat split; vm_compute; reflexivity.
Qed.

(** The theorem at [0.1], which binary32 cannot hold. *)
Lemma isFloatPrecision_spec_witness :
  one_tenth <> Number.NaN
  /\ (isFloatPrecision one_tenth = true <-> through_float32 one_tenth = one_tenth).
Proof.
  assert (Hnan : one_tenth <> Number.NaN) by (vm_compute; discriminate).
  split; [exact Hnan|].
  exact (proj1 isFloatPrecision_spec one_tenth Hnan).
Defined.

Example zero_signs_kept :
  through_float32 (S754_zero true) = S754_zero true
  /\ isFloatPrecision (S754_zero true) = true.
Proof. split; reflexivity. Qed.

(** [2^-150] is below half the least binary32 subnormal and is flushed to
    zero; [2^128] overflows to infinity. *)
Example isFloatPrecision_out_of_range :
  isFloatPrecision (S754_finite false 4503599627370496 (-202)) = false
  /\ isFloatPrecision (S754_finite false 4503599627370496 76) = false.
Proof. split; vm_compute; reflexivity. Qed.

Lemma encodeFloatStruct_single (value : Number.t) :
  encodeFloatStruct value 4
  = Ok (be_bytes 4 (bits_of_float Float32.prec Float32.emax
                      (Float32.of_number value))).
Proof.
  unfold encodeFloatStruct.
  change (Buffer_alloc 4) with (Ok [0; 0; 0; 0]).
  cbn [bind Z.eqb Pos.eqb]. unfold writeFloatBE.
  apply splice_whole. now rewrite be_bytes_length.
Qed.

Lemma encodeFloatStruct_double (value : Number.t) :
  encodeFloatStruct value 8
  = Ok (be_bytes 8 (bits_of_float Number.prec Number.emax value)).
Proof.
  unfold encodeFloatStruct.
  change (Buffer_alloc 8) with (Ok [0; 0; 0; 0; 0; 0; 0; 0]).
  cbn [bind Z.eqb Pos.eqb]. unfold writeDoubleBE.
  apply splice_whole. now rewrite be_bytes_length.
Qed.

Lemma sizeInfo_values :
  sizeInfo 1 = 0 /\ sizeInfo 2 = 1 /\ sizeInfo 4 = 2 /\ sizeInfo 8 = 3.
Proof. repeat split; vm_compute; reflexivity. Qed.

Example encodeType_one_and_half :
  encodeType (JNumber one_and_half) = Ok [0x22; 0x3F; 0xC0; 0; 0].
Proof. vm_compute. reflexivity. Qed.

Example encodeType_one_tenth :
  encodeType (JNumber one_tenth)
  = Ok [0x23; 0x3F; 0xB9; 0x99; 0x99; 0x99; 0x99; 0x99; 0x9A].
Proof. vm_compute. reflexivity. Qed.

(** The spec's float-precision property: 1.5 comes back from its 4-byte
    image, 0.1 from its 8-byte image. *)
Example decodeFloatStruct_examples :
  (let* b := encodeFloatStruct one_and_half 4 in decodeFloatStruct b 0 4)
  = Ok one_and_half
  /\ (let* b := encodeFloatStruct one_tenth 8 in decodeFloatStruct b 0 8)
     = Ok one_tenth.
Proof. split; vm_compute; reflexivity. Qed.

(** ** The bit images of valid floats *)

Lemma digits2_pos_bounds (m : positive) :
  2 ^ (Z.pos (digits2_pos m) - 1) <= Z.pos m < 2 ^ Z.pos (digits2_pos m).
Proof.
  induction m as [p IH|p IH|]; cbn [digits2_pos].
  - rewrite Pos2Z.inj_succ.
    replace (Z.succ (Z.pos (digits2_pos p)) - 1)
      with (Z.succ (Z.pos (digits2_pos p) - 1)) by lia.
    rewrite !Z.pow_succ_r by lia. lia.
  - rewrite Pos2Z.inj_succ.
    replace (Z.succ (Z.pos (digits2_pos p)) - 1)
      with (Z.succ (Z.pos (digits2_pos p) - 1)) by lia.
    rewrite !Z.pow_succ_r by lia. lia.
  - simpl. lia.
Qed.

Lemma odd_sign_bit (s : bool) : Z.odd (sign_bit s) = s.
Proof. now destruct s. Qed.

Lemma sign_bit_range (s : bool) : 0 <= sign_bit s <= 1.
Proof. destruct s; simpl; lia. Qed.

Section InterchangeFacts.

Variables prec emax : Z.
Hypothesis Hprec : 1 < prec.
Hypothesis Hemax : 1 < emax.

Local Abbreviation P := (2 ^ (prec - 1)).
Local Abbreviation M := (2 * emax).

Lemma weight_pos : 0 < P.
Proof. apply Z.pow_pos_nonneg; lia. Qed.

Lemma assemble_fields (S E f : Z) :
  0 <= S <= 1 -> 0 <= E < M -> 0 <= f < P ->
  assemble prec emax S E f / (P * M) = S
  /\ (assemble prec emax S E f / P) mod M = E
  /\ assemble prec emax S E f mod P = f.
Proof.
  intros HS HE Hf. pose proof weight_pos as HP. unfold assemble.
  generalize dependent P. intros p Hf HP.
  assert (Hq : (S * (p * M) + E * p + f) / p = S * M + E).
  { symmetry. apply Z.div_unique with (r := f); [lia | ring]. }
  split; [|split].
  - assert (HEP : 0 <= E * p <= (M - 1) * p).
    { split; [apply Z.mul_nonneg_nonneg; lia|].
      apply Z.mul_le_mono_nonneg_r; lia. }
    assert (HPM : 0 < p * M) by (apply Z.mul_pos_pos; lia).
    symmetry. apply Z.div_unique with (r := E * p + f); [lia | ring].
  - rewrite Hq. symmetry. apply Z.mod_unique with (q := S); [lia | ring].
  - symmetry. apply Z.mod_unique with (q := S * M + E); [lia | ring].
Qed.

(** A valid finite float is subnormal, at the least exponent, or normal,
    with a full significand. *)
Lemma valid_cases (s : bool) (m : positive) (e : Z) :
  valid_binary prec emax (S754_finite s m e) = true ->
  (Z.pos m < P /\ e = emin prec emax)
  \/ (P <= Z.pos m < 2 * P /\ emin prec emax <= e <= emax - prec).
Proof.
  unfold valid_binary, bounded, canonical_mantissa, fexp.
  rewrite andb_true_iff, Z.eqb_eq, Z.leb_le.
  pose proof (digits2_pos_bounds m) as Hd.
  set (d := Z.pos (digits2_pos m)) in *.
  assert (Hd0 : 0 < d) by (unfold d; lia).
  intros [Hc He].
  destruct (Z_le_gt_dec prec d) as [Hge|Hlt].
  - right. assert (Hdp : d = prec) by lia. rewrite Hdp in Hd.
    assert (2 ^ prec = 2 * P).
    { rewrite <- Z.pow_succ_r by lia. f_equal. lia. }
    lia.
  - left. split; [|lia].
    assert (2 ^ d <= P) by (apply Z.pow_le_mono_r; lia). lia.
Qed.

Lemma bits_of_float_assemble (x : spec_float) :
  bits_of_float prec emax x
  = assemble prec emax (sign_bit (sign_of x))
      (fst (fields prec emax x)) (snd (fields prec emax x)).
Proof.
  unfold bits_of_float, assemble, fields. cbv zeta.
  replace (prec - 1 - 1) with (prec - 2) by lia.
  destruct x as [s|s| |s m e]; cbn [sign_of fst snd].
  - destruct s; cbn [sign_bit]; lia.
  - destruct s; cbn [sign_bit]; lia.
  - cbn [sign_bit]. lia.
  - destruct (Z.pos m <? P); destruct s; cbn [sign_bit fst snd]; lia.
Qed.

Lemma fields_range (x : spec_float) :
  valid_binary prec emax x = true ->
  0 <= fst (fields prec emax x) < M /\ 0 <= snd (fields prec emax x) < P.
Proof.
  pose proof weight_pos as HP.
  destruct x as [s|s| |s m e]; intros Hv; cbn [fields fst snd]; try lia.
  - assert (2 * 2 ^ (prec - 2) = P).
    { rewrite <- Z.pow_succ_r by lia. f_equal. lia. }
    assert (0 < 2 ^ (prec - 2)) by (apply Z.pow_pos_nonneg; lia).
    lia.
  - apply valid_cases in Hv. unfold emin in *.
    destruct (Z.ltb_spec (Z.pos m) P); cbn [fst snd];
      destruct Hv as [[? ?]|[? ?]]; lia.
Qed.

Lemma bits_of_float_range (x : spec_float) :
  valid_binary prec emax x = true ->
  0 <= bits_of_float prec emax x < 2 * (P * M).
Proof.
  intros Hv. rewrite bits_of_float_assemble. unfold assemble.
  destruct (fields_range x Hv) as [HE Hf].
  pose proof weight_pos as HP.
  generalize dependent (fst (fields prec emax x)).
  generalize dependent (snd (fields prec emax x)).
  generalize dependent P. intros p HP f Hf E HE.
  assert (HEP : 0 <= E * p <= (M - 1) * p).
  { split; [apply Z.mul_nonneg_nonneg; lia|].
    apply Z.mul_le_mono_nonneg_r; lia. }
  destruct (sign_of x); cbn [sign_bit]; lia.
Qed.

(** Decoding the image of a valid float gives the float back. *)
Lemma float_of_bits_of_float (x : spec_float) :
  valid_binary prec emax x = true ->
  float_of_bits prec emax (bits_of_float prec emax x) = x.
Proof.
  intros Hv. pose proof weight_pos as HP.
  destruct (fields_range x Hv) as [HE Hf].
  pose proof (sign_bit_range (sign_of x)) as HS.
  destruct (assemble_fields _ _ _ HS HE Hf) as (F1 & F2 & F3).
  rewrite bits_of_float_assemble. unfold float_of_bits. cbv zeta.
  rewrite F1, F2, F3, odd_sign_bit.
  destruct x as [s|s| |s m e]; cbn [fields sign_of fst snd] in *.
  - reflexivity.
  - destruct (M - 1 =? 0) eqn:E0; [apply Z.eqb_eq in E0; lia|].
    now rewrite Z.eqb_refl.
  - destruct (M - 1 =? 0) eqn:E0; [apply Z.eqb_eq in E0; lia|].
    rewrite Z.eqb_refl.
    destruct (2 ^ (prec - 2) =? 0) eqn:E1; [|reflexivity].
    apply Z.eqb_eq in E1.
    assert (0 < 2 ^ (prec - 2)) by (apply Z.pow_pos_nonneg; lia). lia.
  - apply valid_cases in Hv. unfold emin in *.
    destruct (Z.ltb_spec (Z.pos m) P) as [Hsub|Hnorm]; cbn [fst snd] in *.
    + destruct Hv as [[_ ->]|[? _]]; [reflexivity | lia].
    + destruct Hv as [[? _]|[Hm He]]; [lia|].
      destruct (e - (3 - emax - prec) + 1 =? 0) eqn:E0;
        [apply Z.eqb_eq in E0; lia|].
      destruct (e - (3 - emax - prec) + 1 =? M - 1) eqn:E1;
        [apply Z.eqb_eq in E1; lia|].
      replace (Z.pos m - P + P) with (Z.pos m) by lia.
      f_equal. lia.
Qed.

End InterchangeFacts.

(** An 8-byte real comes back from its image. *)
Lemma decodeFloatStruct_encodeFloatStruct_double (x : Number.t) :
  valid_binary Number.prec Number.emax x = true ->
  (let* buffer := encodeFloatStruct x 8 in decodeFloatStruct buffer 0 8) = Ok x.
Proof.
  intros Hv. rewrite encodeFloatStruct_double. cbn [bind].
  unfold decodeFloatStruct. cbn [Z.eqb Pos.eqb]. unfold readDoubleBE.
  pose proof (slice_whole (be_bytes 8 (bits_of_float Number.prec Number.emax x))) as Hs.
  rewrite be_bytes_length in Hs. rewrite Hs. cbn [bind].
  rewrite be_value_be_bytes, Z.mod_small.
  - now rewrite float_of_bits_of_float.
  - now apply (bits_of_float_range Number.prec Number.emax).
Qed.
(** ** Dates: [encodeDateStruct] and [decodeDateStruct] *)

Lemma base_seconds :
  Date.getUTCSeconds (Date.construct REFERENCE_DATE) = S754_zero false.
Proof. vm_compute. reflexivity. Qed.

Lemma base_date : Date.construct REFERENCE_DATE = Some 978307200000.
Proof. vm_compute. reflexivity. Qed.

(** The encoding: the tag [0x33], then the seconds since the reference
    date as a big-endian double. *)
Lemma encodeDateStruct_layout (d : Date.t) :
  encodeDateStruct d
  = Ok (0x33 :: be_bytes 8 (bits_of_float Number.prec Number.emax
                              (secondsSinceReference d))).
Proof.
  unfold encodeDateStruct, secondsSinceReference.
  rewrite base_date. change 978307200000 with REFERENCE_DATE.
  change (Buffer_alloc 9) with (Ok [0; 0; 0; 0; 0; 0; 0; 0; 0]).
  change (encodeTypeInfoStruct 3 3) with (Ok 0x33).
  cbn [bind Date.getTime].
  change (writeIntBE 1 [0; 0; 0; 0; 0; 0; 0; 0; 0] 51 0)
    with (Ok [0x33; 0; 0; 0; 0; 0; 0; 0; 0]).
  cbn [bind]. unfold writeDoubleBE, splice.
  rewrite be_bytes_length. reflexivity.
Qed.

Lemma sub_zero (x : Number.t) : Number.sub x (S754_zero false) = x.
Proof. destruct x as [[]|[]| |s m e]; reflexivity. Qed.

Lemma setSeconds_UTC_zone (s : Number.t) :
  Date.setSeconds UTC_zone (Some 978307200000) s
  = if Number.isFinite s
    then Date.TimeClip (978307200000 + 1000 * Number.truncate s)
    else None.
Proof.
  unfold Date.setSeconds.
  destruct (Number.isFinite s); cbn [negb]; [|reflexivity].
  f_equal. generalize (Number.truncate s) as k. intros k.
  cbv [UTC_zone LocalTZA].
  replace (978307200000 + 0) with 978307200000 by reflexivity.
  change (Date.msFromTime 978307200000) with 0.
  change (Date.HourFromTime 978307200000) with 0.
  change (Date.MinFromTime 978307200000) with 0.
  change (Date.Day 978307200000) with 11323.
  unfold Date.msPerSecond, Date.msPerHour, Date.msPerMinute, Date.msPerDay.
  lia.
Qed.

(** In the UTC zone the decoded date is the reference date plus the whole
    seconds of the payload. *)
Lemma decodeDateStruct_UTC_zone (buffer : Buffer) (offset : Z) :
  decodeDateStruct UTC_zone buffer offset
  = let* dateDouble := readDoubleBE buffer (offset + 1) in
    Ok (if Number.isFinite dateDouble
        then Date.TimeClip (978307200000 + 1000 * Number.truncate dateDouble)
        else None).
Proof.
  unfold decodeDateStruct.
  destruct (readDoubleBE buffer (offset + 1)) as [dateDouble|err]; cbn [bind];
    [|reflexivity].
  now rewrite base_seconds, base_date, sub_zero, setSeconds_UTC_zone.
Qed.

Lemma TimeClip_Some (time tv : Z) : Date.TimeClip time = Some tv -> tv = time.
Proof.
  unfold Date.TimeClip. destruct (_ >? _); congruence.
Qed.

(** Hence every decoded date lies on a whole second, *)
Lemma decodeDateStruct_whole_seconds (buffer : Buffer) (offset tv : Z) :
  decodeDateStruct UTC_zone buffer offset = Ok (Some tv) -> tv mod 1000 = 0.
Proof.
  rewrite decodeDateStruct_UTC_zone.
  destruct (readDoubleBE buffer (offset + 1)) as [x|err]; cbn [bind];
    [|discriminate].
  destruct (Number.isFinite x); [|discriminate].
  generalize (Number.truncate x) as k. intros k H.
  assert (Hc : Date.TimeClip (978307200000 + 1000 * k) = Some tv) by congruence.
  apply TimeClip_Some in Hc. subst tv.
  replace (978307200000 + 1000 * k) with (0 + (978307200 + k) * 1000) by lia.
  now rewrite Z.mod_add by lia.
Qed.

(** and no date off the whole seconds comes back from its encoding. *)
Lemma date_roundtrip_needs_whole_seconds (t : Z) :
  t mod 1000 <> 0 ->
  (let* buffer := encodeDateStruct (Some t) in decodeDateStruct UTC_zone buffer 0)
  <> Ok (Some t).
Proof.
  intros Hms. rewrite encodeDateStruct_layout. cbn [bind].
  intros H. apply decodeDateStruct_whole_seconds in H. contradiction.
Qed.

(** The reference date itself: the payload is [+0.0] and decoding gives
    the reference date back. *)
Example encodeDateStruct_epoch :
  encodeDateStruct (Date.construct (Date.UTC 2001 0 1))
  = Ok [0x33; 0; 0; 0; 0; 0; 0; 0; 0]
  /\ secondsSinceReference (Date.construct (Date.UTC 2001 0 1)) = S754_zero false
  /\ (let* buffer := encodeDateStruct (Date.construct (Date.UTC 2001 0 1)) in
      decodeDateStruct UTC_zone buffer 0)
     = Ok (Date.construct (Date.UTC 2001 0 1)).
Proof. repeat split; vm_compute; reflexivity. Qed.

(** A date on a whole second, 2024-12-10T05:55:54Z, comes back. *)
Example decodeDateStruct_whole_second :
  (let* buffer := encodeDateStruct (Some 1733810154000) in
   decodeDateStruct UTC_zone buffer 0) = Ok (Some 1733810154000).
Proof. vm_compute. reflexivity. Qed.

(** [setSeconds] works on local time: where the offset from UTC at the
    decoded date differs from the one at the reference date, the decoded
    date is off by the difference.  2024-07-01T00:00:00Z comes back as
    2024-06-30T23:00:00Z in the sample zone. *)
Example decodeDateStruct_daylight_saving :
  (let* buffer := encodeDateStruct (Some (Date.UTC 2024 6 1)) in
   decodeDateStruct summer_2024 buffer 0)
  = Ok (Some (Date.UTC 2024 6 1 - Date.msPerHour)).
Proof. vm_compute. reflexivity. Qed.

(** C3 fails on the code: half a second after the reference date is
    encoded as the payload [0.5] (image [3FE0000000000000]), and
    [decodeDateStruct] returns the reference date itself: [setSeconds]
    truncates its argument to whole seconds.  In the UTC time zone. *)
Theorem decodeDateStruct_drops_milliseconds :
  (let* buffer := encodeDateStruct (Some (REFERENCE_DATE + 500)) in
   decodeDateStruct UTC_zone buffer 0) = Ok (Some REFERENCE_DATE)
  /\ encodeDateStruct (Some (REFERENCE_DATE + 500))
     = Ok [0x33; 0x3F; 0xE0; 0; 0; 0; 0; 0; 0]
  /\ REFERENCE_DATE <> REFERENCE_DATE + 500.
Proof. repeat split; try (vm_compute; reflexivity). vm_compute. discriminate. Qed.

(** ** [encodeType] *)

(** An integer is written as a tag of kind 1, whose info is
    [sizeInfo] of the width, and its two's-complement image. *)
Lemma encodeType_integer (x : Number.t) (w : Z) :
  Number.isInteger x = true ->
  calculateIntSize (Num x) = Ok w ->
  encodeType (JNumber x)
  = Ok (Z.lor (Z.shiftl 1 4) (sizeInfo w) :: be_bytes (Z.to_nat w) (Number.truncate x)).
Proof.
  intros Hint Hsize. unfold encodeType. rewrite Hint, Hsize. cbn [bind].
  rewrite (calculateIntSize_number x Hint) in Hsize.
  apply calculateIntSize_sound in Hsize. destruct Hsize as [Hw Hfit].
  destruct (width_of_nat w Hw) as (n & Hn & ->).
  rewrite (encodeInt_width n _ Hn Hfit), Nat2Z.id.
  assert (Hinfo : 0 <= sizeInfo (Z.of_nat n) <= 15).
  { destruct sizeInfo_values as (I1 & I2 & I4 & I8). simpl in Hn.
    destruct Hn as [<-|[<-|[<-|[<-|[]]]]];
      cbn [Z.of_nat Pos.of_succ_nat Pos.succ]; rewrite ?I1, ?I2, ?I4, ?I8; lia. }
  destruct (encodeTypeInfoStruct_in_range 1 (sizeInfo (Z.of_nat n))) as (E & Hv & Hb);
    [lia | exact Hinfo |].
  rewrite E. cbn [bind]. unfold Buffer_from. cbn [map].
  fold (Buffer_from (be_bytes n (Number.truncate x))).
  rewrite Buffer_from_be_bytes. f_equal. f_equal.
  rewrite land_byte. apply Z.mod_small. lia.
Qed.

Lemma encodeType_number_no_type_error (x : Number.t) :
  encodeType (JNumber x) <> Throw (Error "Unsupported type").
Proof.
  destruct (Number.isInteger x) eqn:Hint.
  - destruct (calculateIntSize (Num x)) as [w|err] eqn:Hsize.
    + rewrite (encodeType_integer x w Hint Hsize). discriminate.
    + unfold encodeType. rewrite Hint, Hsize. cbn [bind].
      rewrite (calculateIntSize_number x Hint) in Hsize.
      rewrite calculateIntSize_magnitude in Hsize.
      destruct (minimalWidth _); inversion Hsize. discriminate.
  - unfold encodeType. rewrite Hint.
    destruct sizeInfo_values as (_ & _ & I4 & I8).
    destruct (isFloatPrecision x).
    + rewrite I4, encodeFloatStruct_single. discriminate.
    + rewrite I8, encodeFloatStruct_double. discriminate.
Qed.

(** C10: for a Buffer, a string (ASCII or not), an Array, a Set or a
    plain object, [encodeType] returns the empty buffer; and it throws
    [Error('Unsupported type')] exactly for the inputs that match none of
    its branches: undefined, a bigint, a symbol, a function. *)
Theorem encodeType_placeholders :
  (forall b, encodeType (JBuffer b) = Ok [])
  /\ (forall units, encodeType (JString units) = Ok [])
  /\ (forall items, encodeType (JArray items) = Ok [])
  /\ (forall items, encodeType (JSet items) = Ok [])
  /\ (forall entries, encodeType (JObject entries) = Ok [])
  /\ (forall data,
         encodeType data = Throw (Error "Unsupported type")
         <-> In (typeof data) ["undefined"; "bigint"; "symbol"; "function"]%string).
Proof.
  split; [reflexivity|]. split.
  { intros units. cbn [encodeType]. now destruct (is_ascii units). }
  split; [reflexivity|]. split; [reflexivity|]. split; [reflexivity|].
  intros data. split.
  - intros H.
    destruct data as [| |b|x|n|units|sy|f|d|b|items|items|entries];
      cbn [typeof In].
    + discriminate H.
    + now left.
    + destruct b; discriminate H.
    + now apply encodeType_number_no_type_error in H.
    + right. now left.
    + cbn [encodeType] in H. destruct (is_ascii units); discriminate H.
    + right. right. now left.
    + right. right. right. now left.
    + cbn [encodeType] in H. rewrite encodeDateStruct_layout in H.
      discriminate H.
    + discriminate H.
    + discriminate H.
    + discriminate H.
    + discriminate H.
  - destruct data as [| |b|x|n|units|sy|f|d|b|items|items|entries];
      cbn [typeof In]; intros H; try reflexivity;
      repeat (destruct H as [H|H]; try discriminate H); contradiction.
Qed.

(** ** [encodeBinary] *)

(** C2 fails on the code: whatever the input, [encodeBinary] returns the
    empty buffer (and logs the input); there is no header, no object, no
    offset table and no trailer. *)
Theorem encodeBinary_returns_empty_buffer (data : JsValue) (console : Console) :
  exists buffer,
    encodeBinary data console = (Ok buffer, console ++ [data])
    /\ length buffer = 0%nat
    /\ ~ is_file_image buffer.
Proof.
  exists []. split; [reflexivity|]. split; [reflexivity|].
  intros [Hheader _]. discriminate Hheader.
Qed.

(** C1 fails on the code: [encodeBinary] forgets its argument, so whatever
    [decodeBinary] is, some value does not come back from its encoding
    (of [null] and [true], at least one). *)
Theorem encodeBinary_has_no_decoder
  (decodeBinary : Buffer -> result JsValue) (console : Console) :
  exists v : JsValue,
    In v [JNull; JBoolean true]
    /\ bind (fst (encodeBinary v console)) decodeBinary <> Ok v.
Proof.
  destruct (decodeBinary []) as [[]|err] eqn:Hd;
    try (exists JNull; split; [now left|];
         cbn [encodeBinary fst]; change (Buffer_alloc 0) with (@Ok Buffer []);
         cbn [bind]; rewrite Hd; discriminate).
  exists (JBoolean true). split; [right; now left|].
  cbn [encodeBinary fst]. change (Buffer_alloc 0) with (@Ok Buffer []).
  cbn [bind]. rewrite Hd. discriminate.
Qed.

(** * Part III: further properties *)

(** ** Bytes and big-endian values *)

Lemma byte_In (b : Z) : 0 <= b < 256 -> In b byte_values.
Proof.
  intros Hb. unfold byte_values.
  replace b with (Z.of_nat (Z.to_nat b)) by lia.
  apply in_map, in_seq. lia.
Qed.

Lemma be_value_range (b : Buffer) :
  Forall (fun x => 0 <= x < 256) b -> 0 <= be_value b < 256 ^ Z.of_nat (length b).
Proof.
  induction 1 as [|x l Hx Hl IH].
  - cbn. lia.
  - rewrite be_value_cons. cbn [length]. rewrite Nat2Z.inj_succ, Z.pow_succ_r by lia.
    assert (0 < 256 ^ Z.of_nat (length l)) by (apply Z.pow_pos_nonneg; lia).
    nia.
Qed.

(** Only the [k] low-order bytes of a number reach [be_bytes k]. *)
Lemma be_bytes_shift (k : nat) (a r : Z) :
  be_bytes k (a * 256 ^ Z.of_nat k + r) = be_bytes k r.
Proof.
  revert a. induction k as [|k IH]; intros a; [reflexivity|].
  cbn [be_bytes]. f_equal.
  - rewrite !land_byte, !Z.shiftr_div_pow2 by lia.
    rewrite Nat2Z.inj_succ, Z.pow_succ_r by lia.
    rewrite <- pow256 by lia.
    replace (a * (256 * 256 ^ Z.of_nat k) + r)
      with (r + (a * 256) * 256 ^ Z.of_nat k) by ring.
    assert (0 < 256 ^ Z.of_nat k) by (apply Z.pow_pos_nonneg; lia).
    rewrite Z.div_add by lia.
    rewrite Z.mod_add by lia. reflexivity.
  - rewrite Nat2Z.inj_succ, Z.pow_succ_r by lia.
    replace (a * (256 * 256 ^ Z.of_nat k)) with ((a * 256) * 256 ^ Z.of_nat k) by ring.
    apply IH.
Qed.

Lemma be_bytes_be_value (b : Buffer) :
  Forall (fun x => 0 <= x < 256) b -> be_bytes (length b) (be_value b) = b.
Proof.
  induction 1 as [|x l Hx Hl IH]; [reflexivity|].
  cbn [length be_bytes]. rewrite be_value_cons.
  pose proof (be_value_range l Hl) as Hr.
  f_equal.
  - rewrite land_byte, Z.shiftr_div_pow2 by lia.
    rewrite <- pow256 by lia.
    assert (0 < 256 ^ Z.of_nat (length l)) by (apply Z.pow_pos_nonneg; lia).
    rewrite Z.add_comm, Z.div_add by lia.
    rewrite Z.div_small by lia. cbn. apply Z.mod_small. lia.
  - rewrite be_bytes_shift. exact IH.
Qed.

Lemma Buffer_from_bytes (l : Buffer) :
  Forall (fun b => 0 <= b < 256) l -> Buffer_from l = l.
Proof.
  induction 1 as [|b l Hb Hl IH]; [reflexivity|].
  unfold Buffer_from in *. cbn [map]. rewrite IH. f_equal.
  rewrite land_byte. now apply Z.mod_small.
Qed.

Lemma Forall_firstn_bytes (k : nat) (l : Buffer) :
  Forall (fun b => 0 <= b < 256) l -> Forall (fun b => 0 <= b < 256) (firstn k l).
Proof.
  intros Hl. revert k. induction Hl as [|b l Hb Hl IH]; intros [|k]; cbn [firstn];
    constructor; auto.
Qed.

Lemma slice_app (b rest : Buffer) (n : nat) :
  (n <= length b)%nat -> slice (b ++ rest) 0 n = slice b 0 n.
Proof.
  intros Hn. unfold slice. rewrite length_app, Nat2Z.inj_add.
  replace ((0 <? 0) || (Z.of_nat (length b) + Z.of_nat (length rest) <? 0 + Z.of_nat n))
    with false
    by (symmetry; apply orb_false_intro; [reflexivity | apply Z.ltb_ge; lia]).
  replace ((0 <? 0) || (Z.of_nat (length b) <? 0 + Z.of_nat n))
    with false
    by (symmetry; apply orb_false_intro; [reflexivity | apply Z.ltb_ge; lia]).
  cbn [Z.to_nat skipn]. f_equal.
  rewrite firstn_app. replace (n - length b)%nat with 0%nat by lia.
  cbn [firstn]. now rewrite app_nil_r.
Qed.

Lemma slice_short (b : Buffer) (offset : Z) (n : nat) :
  offset < 0 \/ Z.of_nat (length b) < offset + Z.of_nat n ->
  slice b offset n = out_of_range.
Proof.
  intros Hn. unfold slice.
  replace ((offset <? 0) || (Z.of_nat (length b) <? offset + Z.of_nat n)) with true;
    [reflexivity|].
  symmetry. apply orb_true_iff.
  destruct Hn; [left | right]; apply Z.ltb_lt; lia.
Qed.

Lemma slice_payload (tag : Z) (payload rest : Buffer) (n : nat) :
  length payload = n -> slice (tag :: payload ++ rest) 1 n = Ok payload.
Proof.
  intros Hlen. unfold slice. cbn [length]. rewrite length_app.
  replace ((1 <? 0) || (Z.of_nat (S (length payload + length rest)) <? 1 + Z.of_nat n))
    with false
    by (symmetry; apply orb_false_intro; [reflexivity | apply Z.ltb_ge; lia]).
  change (Z.to_nat 1) with 1%nat. cbn [skipn]. f_equal.
  rewrite <- Hlen, firstn_app, Nat.sub_diag, firstn_all. cbn [firstn].
  now rewrite app_nil_r.
Qed.

Lemma Ok_cons_inv (a b : Z) (l m : Buffer) :
  @Ok Buffer (a :: l) = Ok (b :: m) -> b = a /\ m = l.
Proof. intros H. split; congruence. Qed.

(** ** Type tags, both ways *)

Lemma unpack_check_all : forallb unpack_check byte_values = true.
Proof. vm_compute. reflexivity. Qed.

(** X1: a type and an info within 0..15 survive packing into a tag byte
    and unpacking it: [decodeTypeInfoStruct] undoes
    [encodeTypeInfoStruct]. *)
Theorem decodeTypeInfoStruct_inverts_encodeTypeInfoStruct (t i : Z) :
  0 <= t <= 15 -> 0 <= i <= 15 ->
  exists byte,
    encodeTypeInfoStruct t i = Ok byte
    /\ 0 <= byte < 256
    /\ decodeTypeInfoStruct byte = {| type := t; info := i |}.
Proof.
  intros Ht Hi.
  destruct (decodeTypeInfoStruct_encodeTypeInfoStruct t i Ht Hi) as (byte & E & D).
  destruct (encodeTypeInfoStruct_in_range t i Ht Hi) as (E' & _ & Hr).
  exists byte. split; [exact E|]. split; [|exact D].
  rewrite E' in E. assert (byte = Z.lor (Z.shiftl t 4) i) by congruence.
  now subst byte.
Qed.

Lemma decodeTypeInfoStruct_inverts_encodeTypeInfoStruct_witness :
  0 <= 3 <= 15 /\ 0 <= 2 <= 15
  /\ exists byte,
       encodeTypeInfoStruct 3 2 = Ok byte
       /\ 0 <= byte < 256
       /\ decodeTypeInfoStruct byte = {| type := 3; info := 2 |}.
Proof.
  assert (H1 : 0 <= 3 <= 15) by lia.
  assert (H2 : 0 <= 2 <= 15) by lia.
  exact (conj H1 (conj H2
           (decodeTypeInfoStruct_inverts_encodeTypeInfoStruct 3 2 H1 H2))).
Defined.

(** X2: every byte is a tag: [decodeTypeInfoStruct] splits a byte into a
    type and an info within 0..15, and [encodeTypeInfoStruct] packs them
    into the same byte without throwing. *)
Theorem encodeTypeInfoStruct_inverts_decodeTypeInfoStruct (byte : Z) :
  0 <= byte < 256 ->
  0 <= type (decodeTypeInfoStruct byte) <= 15
  /\ 0 <= info (decodeTypeInfoStruct byte) <= 15
  /\ encodeTypeInfoStruct (type (decodeTypeInfoStruct byte))
       (info (decodeTypeInfoStruct byte)) = Ok byte.
Proof.
  intros Hb. pose proof unpack_check_all as H.
  rewrite forallb_forall in H. specialize (H byte (byte_In byte Hb)).
  unfold unpack_check in H.
  repeat (apply andb_prop in H; destruct H as [H ?]).
  repeat match goal with
         | H : (_ <=? _) = true |- _ => apply Z.leb_le in H
         end.
  destruct (encodeTypeInfoStruct _ _) as [packed|]; [|discriminate].
  match goal with H : (_ =? _) = true |- _ => apply Z.eqb_eq in H; subst end.
  repeat split; assumption.
Qed.

Lemma encodeTypeInfoStruct_inverts_decodeTypeInfoStruct_witness :
  0 <= 0x33 < 256
  /\ 0 <= type (decodeTypeInfoStruct 0x33) <= 15
  /\ 0 <= info (decodeTypeInfoStruct 0x33) <= 15
  /\ encodeTypeInfoStruct (type (decodeTypeInfoStruct 0x33))
       (info (decodeTypeInfoStruct 0x33)) = Ok 0x33.
Proof.
  assert (H : 0 <= 0x33 < 256) by lia.
  exact (conj H (encodeTypeInfoStruct_inverts_decodeTypeInfoStruct 0x33 H)).
Defined.

(** ** Integers, from the bytes *)

Lemma readIntBE_whole (n : nat) (b : Buffer) :
  (0 < n)%nat -> length b = n -> Forall (fun x => 0 <= x < 256) b ->
  exists v, readIntBE n b 0 = Ok v /\ fits (Z.of_nat n) v /\ be_bytes n v = b.
Proof.
  intros Hn Hlen Hb. unfold readIntBE.
  pose proof (slice_whole b) as Hs. rewrite Hlen in Hs. rewrite Hs. cbn [bind].
  pose proof (be_value_range b Hb) as Hr. rewrite Hlen, pow256 in Hr by lia.
  assert (Hp : 2 ^ (8 * Z.of_nat n) = 2 * 2 ^ (8 * Z.of_nat n - 1)).
  { rewrite <- Z.pow_succ_r by lia. f_equal. lia. }
  eexists. split; [reflexivity|]. unfold fits.
  destruct (Z.ltb_spec (be_value b) (2 ^ (8 * Z.of_nat n - 1))) as [Hlt|Hge].
  - split; [lia|]. rewrite <- Hlen. now apply be_bytes_be_value.
  - split; [lia|].
    replace (be_value b - 2 * 2 ^ (8 * Z.of_nat n - 1))
      with ((-1) * 256 ^ Z.of_nat n + be_value b) by (rewrite pow256; lia).
    rewrite be_bytes_shift. rewrite <- Hlen. now apply be_bytes_be_value.
Qed.

Lemma decodeInt_readIntBE (n : nat) (b : Buffer) :
  In n [1; 2; 4; 8]%nat -> decodeInt b (Z.of_nat n) = readIntBE n b 0.
Proof.
  intros Hn. unfold decodeInt. simpl in Hn.
  destruct Hn as [<-|[<-|[<-|[<-|[]]]]]; reflexivity.
Qed.

Lemma not_size_eqb (size : Z) :
  ~ In size [1; 2; 4; 8] ->
  (size =? 1) = false /\ (size =? 2) = false /\ (size =? 4) = false /\ (size =? 8) = false.
Proof.
  intros H. simpl in H.
  repeat split; apply Z.eqb_neq; intros ->; apply H; auto 10.
Qed.

(** X3: [encodeInt] undoes [decodeInt]: for a width [w] among 1, 2, 4, 8,
    every buffer of [w] bytes decodes to an integer that fits [w] bytes of
    two's complement, and encoding that integer with the same width gives
    the buffer back.  With C6 this makes the two functions a bijection
    between the [w]-byte buffers and the integers of that range. *)
Theorem encodeInt_inverts_decodeInt (w : Z) (buffer : Buffer) :
  In w [1; 2; 4; 8] ->
  Z.of_nat (length buffer) = w ->
  Forall (fun b => 0 <= b < 256) buffer ->
  exists v, decodeInt buffer w = Ok v /\ fits w v /\ encodeInt v w = Ok buffer.
Proof.
  intros Hw Hlen Hb.
  destruct (width_of_nat w Hw) as (n & Hn & ->).
  apply Nat2Z.inj in Hlen.
  destruct (readIntBE_whole n buffer) as (v & Hv & Hfit & Hbytes);
    [simpl in Hn; destruct Hn as [<-|[<-|[<-|[<-|[]]]]]; lia | exact Hlen | exact Hb |].
  exists v. rewrite (decodeInt_readIntBE n buffer Hn).
  split; [exact Hv|]. split; [exact Hfit|].
  rewrite (encodeInt_width n v Hn Hfit). now f_equal.
Qed.

Lemma encodeInt_inverts_decodeInt_witness :
  In 2 [1; 2; 4; 8]
  /\ Z.of_nat (length [0xFF; 0x7F]) = 2
  /\ Forall (fun b => 0 <= b < 256) [0xFF; 0x7F]
  /\ exists v, decodeInt [0xFF; 0x7F] 2 = Ok v /\ fits 2 v
               /\ encodeInt v 2 = Ok [0xFF; 0x7F].
Proof.
  assert (H1 : In 2 [1; 2; 4; 8]) by (simpl; auto).
  assert (H2 : Z.of_nat (length [0xFF; 0x7F]) = 2) by reflexivity.
  assert (H3 : Forall (fun b => 0 <= b < 256) [0xFF; 0x7F])
    by (repeat constructor; lia).
  exact (conj H1 (conj H2 (conj H3
           (encodeInt_inverts_decodeInt 2 [0xFF; 0x7F] H1 H2 H3)))).
Defined.

(** X4: [decodeInt] with a supported size [w] reads the first [w] bytes of
    the buffer and nothing else: it throws a [RangeError] when the buffer
    is shorter, and bytes after the first [w] do not change the result. *)
Theorem decodeInt_reads_prefix (w : Z) (buffer : Buffer) :
  In w [1; 2; 4; 8] ->
  (Z.of_nat (length buffer) < w -> is_RangeError (decodeInt buffer w) = true)
  /\ (w <= Z.of_nat (length buffer) ->
      forall rest, decodeInt (buffer ++ rest) w = decodeInt buffer w).
Proof.
  intros Hw. destruct (width_of_nat w Hw) as (n & Hn & ->).
  rewrite (decodeInt_readIntBE n buffer Hn). split.
  - intros Hlen. unfold readIntBE. rewrite slice_short by lia. reflexivity.
  - intros Hlen rest. rewrite (decodeInt_readIntBE n _ Hn).
    unfold readIntBE. rewrite slice_app by lia. reflexivity.
Qed.

Lemma decodeInt_reads_prefix_witness :
  In 2 [1; 2; 4; 8]
  /\ (Z.of_nat (length [0x01; 0x2C]) < 2 ->
      is_RangeError (decodeInt [0x01; 0x2C] 2) = true)
  /\ (2 <= Z.of_nat (length [0x01; 0x2C]) ->
      forall rest, decodeInt ([0x01; 0x2C] ++ rest) 2 = decodeInt [0x01; 0x2C] 2).
Proof.
  assert (H : In 2 [1; 2; 4; 8]) by (simpl; auto).
  exact (conj H (decodeInt_reads_prefix 2 [0x01; 0x2C] H)).
Defined.

(** X5: how [encodeInt] and [decodeInt] fail.  With a supported size, a
    value outside the two's-complement range of that size makes
    [encodeInt] throw the write method's [RangeError].  With a size other
    than 1, 2, 4, 8, [encodeInt] never returns a buffer: [Buffer.alloc]
    runs first, so it throws what [Buffer.alloc] throws, a [RangeError],
    and that always for a negative size or one above [MAX_LENGTH]; where
    the allocation succeeds it throws the "Unsupported size" [Error], as
    [decodeInt] does for every such size. *)
Theorem encodeInt_failures (value size : Z) :
  (In size [1; 2; 4; 8] -> ~ fits size value ->
   is_RangeError (encodeInt value size) = true)
  /\ (~ In size [1; 2; 4; 8] ->
      match Buffer_alloc size with
      | Ok _ => encodeInt value size = unsupported_size
      | Throw e =>
          encodeInt value size = Throw e
          /\ is_RangeError (encodeInt value size) = true
      end)
  /\ (size < 0 \/ MAX_LENGTH < size ->
      is_RangeError (encodeInt value size) = true)
  /\ (~ In size [1; 2; 4; 8] -> forall buffer, decodeInt buffer size = unsupported_size).
Proof.
  split; [|split; [|split]].
  - intros Hs Hv. destruct (width_of_nat size Hs) as (n & Hn & ->).
    now rewrite encodeInt_out_of_range.
  - intros Hs. destruct (not_size_eqb size Hs) as (E1 & E2 & E4 & E8).
    unfold encodeInt.
    destruct (Buffer_alloc size) as [b|e] eqn:E; cbn [bind].
    + now rewrite E1, E2, E4, E8.
    + split; [reflexivity|].
      destruct (Buffer_alloc_throws size e E) as [Hr _]. rewrite E in Hr.
      exact Hr.
  - intros H. unfold encodeInt. now rewrite Buffer_alloc_rejects.
  - intros Hs buffer. destruct (not_size_eqb size Hs) as (E1 & E2 & E4 & E8).
    unfold decodeInt. now rewrite E1, E2, E4, E8.
Qed.

(** A size of three bytes is allocated and then refused; a size of [2^53]
    is refused by [Buffer.alloc]. *)
Example encodeInt_unsupported_sizes :
  encodeInt 5 3 = unsupported_size
  /\ is_RangeError (encodeInt 5 (2 ^ 53)) = true
  /\ is_RangeError (encodeInt 5 (-1)) = true.
Proof. repeat split. Qed.

(** ** [calculateIntSize], every outcome *)

(** X6: the three outcomes of [calculateIntSize].  It returns a size
    exactly for an integer (a bigint, or a number that is an integer) of
    magnitude below [2^63]; the size [w] is then among 1, 2, 4, 8 and is
    the least of them whose two's-complement range holds both the value
    and its negation.  It throws its [TypeError] exactly on a number that
    is not an integer, its [RangeError] exactly on an integer of magnitude
    at least [2^63], and nothing else. *)
Theorem calculateIntSize_outcome (value : numeric) :
  match calculateIntSize value with
  | Ok w =>
      (forall x, value = Num x -> Number.isInteger x = true)
      /\ Z.abs (integerValue value) < 2 ^ 63
      /\ In w [1; 2; 4; 8]
      /\ fits w (integerValue value) /\ fits w (- integerValue value)
      /\ forall w', In w' [1; 2; 4; 8] ->
                    fits w' (integerValue value) -> fits w' (- integerValue value) ->
                    w <= w'
  | Throw (TypeError msg) =>
      msg = "The input must be a valid integer or BigInt."%string
      /\ exists x, value = Num x /\ Number.isInteger x = false
  | Throw (RangeError msg) =>
      msg = "The input exceeds the range of an 8-byte integer (Int64)."%string
      /\ (forall x, value = Num x -> Number.isInteger x = true)
      /\ 2 ^ 63 <= Z.abs (integerValue value)
  | Throw (Error _) => False
  end.
Proof.
  assert (Hbig : forall v,
    match calculateIntSize (Big v) with
    | Ok w =>
        Z.abs v < 2 ^ 63
        /\ In w [1; 2; 4; 8] /\ fits w v /\ fits w (- v)
        /\ forall w', In w' [1; 2; 4; 8] -> fits w' v -> fits w' (- v) -> w <= w'
    | Throw (TypeError _) => False
    | Throw (RangeError msg) =>
        msg = "The input exceeds the range of an 8-byte integer (Int64)."%string
        /\ 2 ^ 63 <= Z.abs v
    | Throw (Error _) => False
    end).
  { intros v. unfold calculateIntSize, fits. cbn [negb].
    destruct (Z.ltb_spec v 0); compare_cases; try (split; [reflexivity | lia]);
      (split; [lia|]);
      (split; [simpl; auto 10|]); (split; [simpl; lia|]); (split; [simpl; lia|]);
      intros w' Hw'; simpl in Hw';
      destruct Hw' as [<-|[<-|[<-|[<-|[]]]]]; simpl; lia. }
  destruct value as [x|n]; cbn [integerValue].
  2:{ specialize (Hbig n).
      destruct (calculateIntSize (Big n)) as [w|[]]; try contradiction.
      - split; [discriminate | exact Hbig].
      - destruct Hbig as [Hmsg Hv]. split; [exact Hmsg|].
        split; [discriminate | exact Hv]. }
  destruct (Number.isInteger x) eqn:Hint.
  - assert (Hx : forall x', Num x = Num x' -> Number.isInteger x' = true)
      by (intros x' Hx'; congruence).
    rewrite calculateIntSize_number by assumption. specialize (Hbig (Number.truncate x)).
    destruct (calculateIntSize (Big (Number.truncate x))) as [w|[]];
      try contradiction.
    + split; [exact Hx | exact Hbig].
    + destruct Hbig as [Hmsg Hv]. split; [exact Hmsg|].
      split; [exact Hx | exact Hv].
  - rewrite calculateIntSize_not_integer by assumption.
    split; [reflexivity|]. now exists x.
Qed.

(** X7: the size that [calculateIntSize] returns is one [encodeInt]
    accepts for the same value: the encoding succeeds, has that many
    bytes, and [decodeInt] with that size reads the value back. *)
Theorem calculateIntSize_then_encodeInt (value : numeric) (w : Z) :
  calculateIntSize value = Ok w ->
  exists bytes,
    encodeInt (integerValue value) w = Ok bytes
    /\ Z.of_nat (length bytes) = w
    /\ decodeInt bytes w = Ok (integerValue value).
Proof.
  intros H.
  assert (Hbig : calculateIntSize (Big (integerValue value)) = Ok w).
  { destruct value as [x|n]; [|exact H]. cbn [integerValue].
    destruct (Number.isInteger x) eqn:Hint.
    - now rewrite <- calculateIntSize_number.
    - rewrite calculateIntSize_not_integer in H by assumption. discriminate. }
  apply calculateIntSize_sound in Hbig. destruct Hbig as [Hw Hfit].
  destruct (width_of_nat w Hw) as (n & Hn & ->).
  exists (be_bytes n (integerValue value)).
  split; [now apply encodeInt_width|].
  split; [now rewrite be_bytes_length|].
  now apply decodeInt_width.
Qed.

Lemma calculateIntSize_then_encodeInt_witness :
  calculateIntSize (Big (-129)) = Ok 2
  /\ exists bytes,
       encodeInt (integerValue (Big (-129))) 2 = Ok bytes
       /\ Z.of_nat (length bytes) = 2
       /\ decodeInt bytes 2 = Ok (integerValue (Big (-129))).
Proof.
  assert (H : calculateIntSize (Big (-129)) = Ok 2) by reflexivity.
  exact (conj H (calculateIntSize_then_encodeInt (Big (-129)) 2 H)).
Defined.

(** ** Bit images, from the bits *)

Lemma digits2_pos_unique (m : positive) (d : Z) :
  2 ^ (d - 1) <= Z.pos m < 2 ^ d -> Z.pos (digits2_pos m) = d.
Proof.
  intros Hd. pose proof (digits2_pos_bounds m) as Hm.
  set (d' := Z.pos (digits2_pos m)) in *.
  assert (0 < d') by (unfold d'; lia).
  assert (Hd0 : 0 < d).
  { destruct (Z_lt_le_dec 0 d); [assumption|].
    assert (2 ^ d <= 2 ^ 0) by (apply Z.pow_le_mono_r; lia).
    change (2 ^ 0) with 1 in *. lia. }
  destruct (Z.lt_trichotomy d' d) as [Hlt|[Heq|Hgt]]; [|exact Heq|].
  - assert (2 ^ d' <= 2 ^ (d - 1)) by (apply Z.pow_le_mono_r; lia). lia.
  - assert (2 ^ d <= 2 ^ (d' - 1)) by (apply Z.pow_le_mono_r; lia). lia.
Qed.

Section InterchangeInverse.

Variables prec emax : Z.
Hypothesis Hprec : 1 < prec.
Hypothesis Hemax : 1 < emax.

Local Abbreviation P := (2 ^ (prec - 1)).
Local Abbreviation M := (2 * emax).

Lemma bits_decompose (z : Z) :
  0 <= z < 2 * (P * M) ->
  z = assemble prec emax (z / (P * M)) ((z / P) mod M) (z mod P)
  /\ 0 <= z / (P * M) <= 1
  /\ 0 <= (z / P) mod M < M
  /\ 0 <= z mod P < P.
Proof.
  intros Hz. pose proof (weight_pos prec Hprec) as HP.
  assert (HM : 0 < M) by lia.
  assert (HPM : 0 < P * M) by (apply Z.mul_pos_pos; lia).
  unfold assemble. split; [|split; [|split]].
  - rewrite <- Z.div_div by lia.
    pose proof (Z.div_mod z P ltac:(lia)) as E1.
    pose proof (Z.div_mod (z / P) M ltac:(lia)) as E2.
    generalize dependent (z / P / M). generalize dependent ((z / P) mod M).
    generalize dependent (z mod P). generalize dependent (z / P).
    generalize dependent P. intros. subst. ring.
  - split; [apply Z.div_pos; lia|].
    assert (z / (P * M) < 2) by (apply Z.div_lt_upper_bound; lia). lia.
  - apply Z.mod_pos_bound. lia.
  - apply Z.mod_pos_bound. lia.
Qed.

Lemma sign_of_odd (S : Z) :
  0 <= S <= 1 -> (if Z.odd S then P * M else 0) = S * (P * M).
Proof.
  intros HS. assert (HS' : S = 0 \/ S = 1) by lia.
  destruct HS' as [-> | ->]; cbn [Z.odd]; lia.
Qed.

(** The float read from a bit image is valid. *)
Lemma float_of_bits_valid (z : Z) :
  0 <= z < 2 * (P * M) ->
  valid_binary prec emax (float_of_bits prec emax z) = true.
Proof.
  intros Hz. pose proof (weight_pos prec Hprec) as HP.
  destruct (bits_decompose z Hz) as (_ & _ & HE & Hf).
  unfold float_of_bits. cbv zeta.
  set (E := (z / P) mod M) in *. set (f := z mod P) in *.
  assert (H2P : 2 ^ prec = 2 * P).
  { rewrite <- Z.pow_succ_r by lia. f_equal. lia. }
  destruct (Z.eqb_spec E 0) as [E0|E0].
  - destruct f as [|m|m] eqn:Ef; try reflexivity.
    cbn [valid_binary]. unfold bounded, canonical_mantissa, fexp, emin.
    pose proof (digits2_pos_bounds m) as Hd.
    set (d := Z.pos (digits2_pos m)) in *.
    assert (d <= prec - 1).
    { destruct (Z_le_gt_dec d (prec - 1)); [assumption|].
      assert (P <= 2 ^ (d - 1)) by (apply Z.pow_le_mono_r; lia). lia. }
    apply andb_true_intro. split; [apply Z.eqb_eq | apply Z.leb_le]; lia.
  - destruct (Z.eqb_spec E (M - 1)) as [E1|E1].
    + now destruct (f =? 0).
    + destruct (f + P) as [|m|m] eqn:Efm; try lia.
      cbn [valid_binary]. unfold bounded, canonical_mantissa, fexp, emin.
      rewrite (digits2_pos_unique m prec) by lia.
      apply andb_true_intro. split; [apply Z.eqb_eq | apply Z.leb_le]; lia.
Qed.

(** Writing back the float read from a bit image gives the image, NaN apart. *)
Lemma bits_of_float_of_bits (z : Z) :
  0 <= z < 2 * (P * M) ->
  float_of_bits prec emax z <> S754_nan ->
  bits_of_float prec emax (float_of_bits prec emax z) = z.
Proof.
  intros Hz. pose proof (weight_pos prec Hprec) as HP.
  destruct (bits_decompose z Hz) as (Ez & HS & HE & Hf).
  rewrite Ez at 3. unfold assemble.
  unfold float_of_bits. cbv zeta.
  set (S := z / (P * M)) in *. set (E := (z / P) mod M) in *.
  set (f := z mod P) in *.
  pose proof (sign_of_odd S HS) as Hsign.
  destruct (Z.eqb_spec E 0) as [E0|E0].
  - intros _. destruct f as [|m|m] eqn:Ef.
    + unfold bits_of_float. cbv zeta. rewrite Hsign, E0. ring.
    + unfold bits_of_float. cbv zeta. rewrite Hsign, E0.
      destruct (Z.ltb_spec (Z.pos m) P); [ring | lia].
    + lia.
  - destruct (Z.eqb_spec E (M - 1)) as [E1|E1].
    + destruct (Z.eqb_spec f 0) as [F0|F0]; [|intros H; now contradiction H].
      intros _. unfold bits_of_float. cbv zeta. rewrite Hsign, E1, F0. ring.
    + intros _. destruct (f + P) as [|m|m] eqn:Efm; try lia.
      unfold bits_of_float. cbv zeta. rewrite Hsign.
      destruct (Z.ltb_spec (Z.pos m) P); [lia|].
      unfold emin. rewrite <- Efm. ring.
Qed.

End InterchangeInverse.

Lemma double_span : 2 * (2 ^ (Number.prec - 1) * (2 * Number.emax)) = 2 ^ (8 * Z.of_nat 8).
Proof. reflexivity. Qed.

(** ** Rounding yields a float of the format

    [Float32.of_number] and [Float32.to_number] round with
    [binary_round]; what it returns is a valid float of the target
    format, whatever the input. *)

Lemma iter_pos_nat {A : Type} (f : A -> A) (p : positive) (x : A) :
  iter_pos f p x = Nat.iter (Pos.to_nat p) f x.
Proof.
  revert x. induction p as [p IH|p IH|]; intros x; cbn [iter_pos].
  - rewrite !IH, Pos2Nat.inj_xI.
    replace (S (2 * Pos.to_nat p)) with (Pos.to_nat p + (Pos.to_nat p + 1))%nat by lia.
    rewrite !Nat.iter_add. reflexivity.
  - rewrite !IH, Pos2Nat.inj_xO.
    replace (2 * Pos.to_nat p)%nat with (Pos.to_nat p + Pos.to_nat p)%nat by lia.
    rewrite Nat.iter_add. reflexivity.
  - reflexivity.
Qed.

Lemma shr_1_m (mrs : shr_record) :
  0 <= shr_m mrs -> shr_m (shr_1 mrs) = shr_m mrs / 2.
Proof.
  destruct mrs as [m r s]. cbn [shr_m]. intros Hm.
  destruct m as [|[p|p|]|p]; cbn [shr_1 shr_m]; try lia; try reflexivity.
  - rewrite Pos2Z.inj_xI. apply Z.div_unique with (r := 1); lia.
  - rewrite Pos2Z.inj_xO. apply Z.div_unique with (r := 0); lia.
Qed.

Lemma shr_iter_m (n : nat) (mrs : shr_record) :
  0 <= shr_m mrs ->
  shr_m (Nat.iter n shr_1 mrs) = shr_m mrs / 2 ^ Z.of_nat n.
Proof.
  intros Hm. induction n as [|n IH].
  - cbn. now rewrite Z.div_1_r.
  - rewrite Nat.iter_succ, shr_1_m.
    + rewrite IH, Nat2Z.inj_succ, Z.pow_succ_r by lia.
      rewrite Z.div_div by (try apply Z.pow_pos_nonneg; lia).
      f_equal. ring.
    + rewrite IH. apply Z.div_pos; [lia | apply Z.pow_pos_nonneg; lia].
Qed.

(** The mantissa after [shr]: shifted right by [n] when [n] is positive. *)
Lemma shr_m_value (m : Z) (l : location) (e n : Z) :
  0 <= m ->
  shr_m (fst (shr (shr_record_of_loc m l) e n)) = (if 0 <? n then m / 2 ^ n else m)
  /\ snd (shr (shr_record_of_loc m l) e n) = (if 0 <? n then e + n else e).
Proof.
  intros Hm.
  assert (Hrec : shr_m (shr_record_of_loc m l) = m) by (now destruct l as [|[]]).
  destruct n as [|p|p]; cbn [shr fst snd Z.ltb Z.compare]; auto.
  rewrite iter_pos_nat, shr_iter_m, Hrec, positive_nat_Z by lia. auto.
Qed.

Lemma round_nearest_even_cases (m : Z) (l : location) :
  round_nearest_even m l = m \/ round_nearest_even m l = m + 1.
Proof.
  destruct l as [|[]]; cbn [round_nearest_even]; auto.
  destruct (Z.even m); auto.
Qed.

Lemma Zdigits2_bounds (m : Z) :
  0 < m -> 2 ^ (Zdigits2 m - 1) <= m < 2 ^ Zdigits2 m.
Proof.
  destruct m as [|p|p]; try lia. intros _. apply digits2_pos_bounds.
Qed.

Lemma Zdigits2_unique (m d : Z) :
  2 ^ (d - 1) <= m < 2 ^ d -> 0 < m -> Zdigits2 m = d.
Proof.
  destruct m as [|p|p]; try lia. intros H _. now apply digits2_pos_unique.
Qed.

Lemma pos_iter_xO (m k : positive) :
  Z.pos (Pos.iter xO m k) = Z.pos m * 2 ^ Z.pos k.
Proof.
  induction k as [|k IH] using Pos.peano_ind.
  - cbn. lia.
  - rewrite Pos.iter_succ, Pos2Z.inj_xO, IH, Pos2Z.inj_succ, Z.pow_succ_r by lia.
    ring.
Qed.

Section Rounding.

Variables prec emax : Z.
Hypothesis Hprec : 1 < prec.

Local Abbreviation fexp := (SpecFloat.fexp prec emax).
Local Abbreviation emin := (SpecFloat.emin prec emax).

Lemma fexp_ge_emin (k : Z) : emin <= fexp k.
Proof. unfold SpecFloat.fexp. lia. Qed.

(** Shifting a positive mantissa right keeps the sum of digits and exponent. *)
Lemma digits_div_pow2 (m n : Z) :
  0 < m -> 0 <= n -> 0 < m / 2 ^ n ->
  Zdigits2 (m / 2 ^ n) = Zdigits2 m - n.
Proof.
  intros Hm Hn Hq.
  pose proof (Zdigits2_bounds m Hm) as Hd.
  set (d := Zdigits2 m) in *.
  assert (Hp : 0 < 2 ^ n) by (apply Z.pow_pos_nonneg; lia).
  assert (Hdn : n < d).
  { destruct (Z_lt_le_dec n d); [assumption|].
    assert (0 <= d \/ d < 0) as [Hd0|Hd0] by lia.
    - assert (2 ^ d <= 2 ^ n) by (apply Z.pow_le_mono_r; lia).
      rewrite Z.div_small in Hq by lia. lia.
    - rewrite (Z.pow_neg_r 2 d) in Hd by lia. lia. }
  apply Zdigits2_unique; [|assumption].
  assert (E1 : 2 ^ (d - 1) = 2 ^ (d - n - 1) * 2 ^ n).
  { rewrite <- Z.pow_add_r by lia. f_equal. lia. }
  assert (E2 : 2 ^ d = 2 ^ (d - n) * 2 ^ n).
  { rewrite <- Z.pow_add_r by lia. f_equal. lia. }
  split.
  - apply Z.div_le_lower_bound; [lia|]. rewrite Z.mul_comm, <- E1. lia.
  - apply Z.div_lt_upper_bound; [lia|]. rewrite Z.mul_comm, <- E2. lia.
Qed.

Lemma binary_round_aux_valid (sx : bool) (mx ex : Z) (lx : location) :
  0 < mx ->
  ex <= fexp (Zdigits2 mx + ex) ->
  valid_binary prec emax (binary_round_aux prec emax sx mx ex lx) = true.
Proof.
  intros Hmx Hex. unfold binary_round_aux, shr_fexp.
  remember (fexp (Zdigits2 mx + ex)) as e1 eqn:He1def.
  destruct (shr (shr_record_of_loc mx lx) ex (e1 - ex)) as [mrs' e'] eqn:S1.
  pose proof (shr_m_value mx lx ex (e1 - ex) ltac:(lia)) as [Hm1 He1].
  rewrite S1 in Hm1, He1. cbn [fst snd] in Hm1, He1.
  set (m1 := shr_m mrs') in *.
  assert (He' : e' = e1) by (destruct (0 <? e1 - ex) eqn:C; [lia | apply Z.ltb_ge in C; lia]).
  assert (Hm1' : m1 = mx / 2 ^ (e1 - ex)).
  { destruct (0 <? e1 - ex) eqn:C; [exact Hm1|].
    apply Z.ltb_ge in C. replace (e1 - ex) with 0 by lia.
    now rewrite Z.div_1_r. }
  clear Hm1 He1. subst e'.
  assert (Hp : 0 < 2 ^ (e1 - ex)) by (apply Z.pow_pos_nonneg; lia).
  assert (Hm1nn : 0 <= m1) by (rewrite Hm1'; apply Z.div_pos; lia).
  set (m2 := round_nearest_even m1 (loc_of_shr_record mrs')).
  assert (Hm2 : m2 = m1 \/ m2 = m1 + 1) by apply round_nearest_even_cases.
  assert (Hemin : emin <= e1) by (rewrite He1def; apply fexp_ge_emin).
  (* the digits of m2 and the second shift *)
  assert (Hcanon :
    m2 = 0 \/
    (0 < m2 /\ fexp (Zdigits2 m2 + e1) = e1) \/
    (0 < m2 /\ fexp (Zdigits2 m2 + e1) = e1 + 1 /\ m2 = 2 ^ prec)).
  { destruct (Z.eq_dec m1 0) as [Hz|Hnz].
    - (* everything was shifted out *)
      assert (He1 : e1 = emin).
      { pose proof (Zdigits2_bounds mx Hmx) as Hd.
        rewrite Hz in Hm1'. symmetry in Hm1'.
        apply Z.div_small_iff in Hm1'; [|lia].
        destruct Hm1' as [Hsmall|?]; [|lia].
        assert (Zdigits2 mx - 1 < e1 - ex).
        { destruct (Z_lt_le_dec (Zdigits2 mx - 1) (e1 - ex)); [assumption|].
          assert (2 ^ (e1 - ex) <= 2 ^ (Zdigits2 mx - 1))
            by (apply Z.pow_le_mono_r; lia). lia. }
        unfold SpecFloat.fexp in He1def. lia. }
      destruct Hm2 as [->| ->]; [left; exact Hz|].
      right. left. rewrite Hz. change (Zdigits2 (0 + 1)) with 1.
      split; [lia|]. unfold SpecFloat.fexp. lia.
    - assert (Hm1pos : 0 < m1) by lia.
      assert (Hd1 : Zdigits2 m1 + e1 = Zdigits2 mx + ex).
      { rewrite Hm1', digits_div_pow2 by (rewrite <- ?Hm1'; lia). lia. }
      assert (Hc1 : fexp (Zdigits2 m1 + e1) = e1) by (now rewrite Hd1).
      clear He1def.
      destruct Hm2 as [->| ->]; [right; left; auto|].
      pose proof (Zdigits2_bounds m1 Hm1pos) as Hb.
      set (d1 := Zdigits2 m1) in *.
      assert (Hd1pos : 0 < d1).
      { destruct (Z_lt_le_dec 0 d1); [assumption|].
        assert (2 ^ d1 <= 2 ^ 0) by (apply Z.pow_le_mono_r; lia).
        change (2 ^ 0) with 1 in *. lia. }
      destruct (Z.eq_dec (m1 + 1) (2 ^ d1)) as [Hfull|Hnot].
      + assert (Hd2 : Zdigits2 (m1 + 1) = d1 + 1).
        { apply Zdigits2_unique; [|lia].
          replace (d1 + 1 - 1) with d1 by lia.
          rewrite Z.pow_add_r by lia. change (2 ^ 1) with 2. lia. }
        rewrite Hd2. unfold SpecFloat.fexp in *.
        destruct (Z.eq_dec d1 prec) as [Hdp|Hdp].
        * right. right. split; [lia|]. split; [lia|]. now rewrite Hfull, Hdp.
        * right. left. split; lia.
      + right. left. split; [lia|].
        replace (Zdigits2 (m1 + 1)) with d1; [exact Hc1|].
        symmetry. apply Zdigits2_unique; lia. }
  destruct Hcanon as [Hz|[[Hpos Hc]|(Hpos & Hc & Hfull)]].
  - rewrite Hz. change (Zdigits2 0 + e1) with e1.
    assert (Hn : fexp e1 - e1 <= 0) by (unfold SpecFloat.fexp; lia).
    destruct (fexp e1 - e1) as [|p|p] eqn:En; try lia; reflexivity.
  - rewrite Hc, Z.sub_diag. cbn [shr shr_record_of_loc shr_m].
    destruct m2 as [|m|m]; try lia.
    destruct (Z.leb_spec e1 (emax - prec)); [|reflexivity].
    cbn [valid_binary]. unfold bounded, canonical_mantissa.
    apply andb_true_intro. split; [apply Z.eqb_eq; exact Hc | apply Z.leb_le; lia].
  - rewrite Hc. replace (e1 + 1 - e1) with 1 by lia.
    cbn [shr iter_pos shr_record_of_loc shr_1 shr_m].
    rewrite Hfull.
    assert (E : 2 ^ prec = 2 * 2 ^ (prec - 1)).
    { rewrite <- Z.pow_succ_r by lia. f_equal. lia. }
    assert (Hq : 0 < 2 ^ (prec - 1)) by (apply Z.pow_pos_nonneg; lia).
    rewrite E.
    destruct (2 ^ (prec - 1)) as [|q|q] eqn:Eq; try lia.
    cbn [Z.mul Pos.mul shr_1 shr_m Z.add].
    destruct (Z.leb_spec (e1 + 1) (emax - prec)); [|reflexivity].
    cbn [valid_binary]. unfold bounded, canonical_mantissa.
    apply andb_true_intro. split; [apply Z.eqb_eq | apply Z.leb_le; lia].
    rewrite (digits2_pos_unique q prec).
    + rewrite Hfull in Hc.
      assert (Hd : Zdigits2 (2 ^ prec) = prec + 1).
      { apply Zdigits2_unique; [|apply Z.pow_pos_nonneg; lia].
        replace (prec + 1 - 1) with prec by lia.
        rewrite Z.pow_add_r by lia. lia. }
      rewrite Hd in Hc. unfold SpecFloat.fexp in *. lia.
    + rewrite <- Eq. rewrite E. lia.
Qed.

Lemma binary_round_valid (s : bool) (m : positive) (e : Z) :
  valid_binary prec emax (binary_round prec emax s m e) = true.
Proof.
  unfold binary_round, shl_align.
  set (e1 := fexp (Z.pos (digits2_pos m) + e)).
  destruct (e1 - e) as [|d|d] eqn:Ed.
  - apply binary_round_aux_valid; [lia|]. cbn [Zdigits2]. fold e1. lia.
  - apply binary_round_aux_valid; [lia|]. cbn [Zdigits2]. fold e1. lia.
  - apply binary_round_aux_valid; [lia|].
    assert (Hv : Z.pos (Pos.iter xO m d) = Z.pos m * 2 ^ Z.pos d) by apply pos_iter_xO.
    assert (Hdig : Zdigits2 (Z.pos (Pos.iter xO m d)) = Z.pos (digits2_pos m) + Z.pos d).
    { apply Zdigits2_unique; [|lia]. rewrite Hv.
      pose proof (digits2_pos_bounds m) as Hb.
      assert (Hp : 0 < 2 ^ Z.pos d) by (apply Z.pow_pos_nonneg; lia).
      replace (Z.pos (digits2_pos m) + Z.pos d - 1)
        with ((Z.pos (digits2_pos m) - 1) + Z.pos d) by lia.
      rewrite !Z.pow_add_r by lia. nia. }
    rewrite Hdig.
    replace (Z.pos (digits2_pos m) + Z.pos d + e1) with (Z.pos (digits2_pos m) + e) by lia.
    fold e1. lia.
Qed.

End Rounding.

Lemma Float32_of_number_valid (x : Number.t) :
  valid_binary Float32.prec Float32.emax (Float32.of_number x) = true.
Proof.
  destruct x as [s|s| |s m e]; try reflexivity.
  apply binary_round_valid. reflexivity.
Qed.

Lemma single_span :
  2 * (2 ^ (Float32.prec - 1) * (2 * Float32.emax)) = 2 ^ (8 * Z.of_nat 4).
Proof. reflexivity. Qed.

Lemma readFloatBE_writeFloatBE (x : Number.t) :
  readFloatBE (be_bytes 4 (bits_of_float Float32.prec Float32.emax
                             (Float32.of_number x))) 0
  = Ok (through_float32 x).
Proof.
  unfold readFloatBE.
  pose proof (slice_whole (be_bytes 4 (bits_of_float Float32.prec Float32.emax
                                         (Float32.of_number x)))) as Hs.
  rewrite be_bytes_length in Hs. rewrite Hs. cbn [bind].
  pose proof (Float32_of_number_valid x) as Hv.
  rewrite be_value_be_bytes, Z.mod_small.
  - now rewrite float_of_bits_of_float.
  - rewrite <- single_span.
    now apply (bits_of_float_range Float32.prec Float32.emax).
Qed.

Lemma readDoubleBE_writeDoubleBE (x : Number.t) :
  valid_binary Number.prec Number.emax x = true ->
  readDoubleBE (be_bytes 8 (bits_of_float Number.prec Number.emax x)) 0 = Ok x.
Proof.
  intros Hv. unfold readDoubleBE.
  pose proof (slice_whole (be_bytes 8 (bits_of_float Number.prec Number.emax x))) as Hs.
  rewrite be_bytes_length in Hs. rewrite Hs. cbn [bind].
  rewrite be_value_be_bytes, Z.mod_small.
  - now rewrite float_of_bits_of_float.
  - now apply (bits_of_float_range Number.prec Number.emax).
Qed.

(** ** Reals: [encodeFloatStruct] and [decodeFloatStruct] *)

(** X8: a number survives the 8-byte encoding: [decodeFloatStruct] reads
    back from the eight bytes of [encodeFloatStruct] the very number that
    was written, NaN, the infinities and both zeros included. *)
Theorem decodeFloatStruct_inverts_encodeFloatStruct (x : Number.t) :
  valid_binary Number.prec Number.emax x = true ->
  exists buffer,
    encodeFloatStruct x 8 = Ok buffer
    /\ length buffer = 8%nat
    /\ Forall (fun b => 0 <= b < 256) buffer
    /\ decodeFloatStruct buffer 0 8 = Ok x.
Proof.
  intros Hv. pose proof (decodeFloatStruct_encodeFloatStruct_double x Hv) as H.
  rewrite encodeFloatStruct_double in *. cbn [bind] in H.
  eexists. split; [reflexivity|]. split; [apply be_bytes_length|].
  split; [apply be_bytes_range | exact H].
Qed.

Lemma decodeFloatStruct_inverts_encodeFloatStruct_witness :
  valid_binary Number.prec Number.emax one_tenth = true
  /\ exists buffer,
       encodeFloatStruct one_tenth 8 = Ok buffer
       /\ length buffer = 8%nat
       /\ Forall (fun b => 0 <= b < 256) buffer
       /\ decodeFloatStruct buffer 0 8 = Ok one_tenth.
Proof.
  assert (H : valid_binary Number.prec Number.emax one_tenth = true)
    by (vm_compute; reflexivity).
  exact (conj H (decodeFloatStruct_inverts_encodeFloatStruct one_tenth H)).
Defined.

(** X9: [encodeFloatStruct] undoes [decodeFloatStruct] on eight bytes:
    what is read from an 8-byte buffer is a number of the binary64 format,
    and unless it is NaN, encoding it gives the buffer back.  (All NaN
    images are read as the one NaN.) *)
Theorem encodeFloatStruct_inverts_decodeFloatStruct (buffer : Buffer) (x : Number.t) :
  length buffer = 8%nat ->
  Forall (fun b => 0 <= b < 256) buffer ->
  decodeFloatStruct buffer 0 8 = Ok x ->
  valid_binary Number.prec Number.emax x = true
  /\ (x <> Number.NaN -> encodeFloatStruct x 8 = Ok buffer).
Proof.
  intros Hlen Hb. unfold decodeFloatStruct. cbn [Z.eqb Pos.eqb]. unfold readDoubleBE.
  pose proof (slice_whole buffer) as Hs. rewrite Hlen in Hs. rewrite Hs. cbn [bind].
  intros Hx. assert (Ex : x = float_of_bits Number.prec Number.emax (be_value buffer))
    by congruence. clear Hx.
  pose proof (be_value_range buffer Hb) as Hr.
  rewrite Hlen, pow256, <- double_span in Hr by lia.
  split.
  - rewrite Ex. now apply float_of_bits_valid.
  - intros Hnan. rewrite encodeFloatStruct_double, Ex.
    rewrite bits_of_float_of_bits by (reflexivity || assumption || now rewrite <- Ex).
    f_equal. rewrite <- Hlen. now apply be_bytes_be_value.
Qed.

Lemma encodeFloatStruct_inverts_decodeFloatStruct_witness :
  length [0x3F; 0xB9; 0x99; 0x99; 0x99; 0x99; 0x99; 0x9A] = 8%nat
  /\ Forall (fun b => 0 <= b < 256) [0x3F; 0xB9; 0x99; 0x99; 0x99; 0x99; 0x99; 0x9A]
  /\ decodeFloatStruct [0x3F; 0xB9; 0x99; 0x99; 0x99; 0x99; 0x99; 0x9A] 0 8
     = Ok one_tenth
  /\ valid_binary Number.prec Number.emax one_tenth = true
  /\ (one_tenth <> Number.NaN ->
      encodeFloatStruct one_tenth 8
      = Ok [0x3F; 0xB9; 0x99; 0x99; 0x99; 0x99; 0x99; 0x9A]).
Proof.
  assert (H1 : length [0x3F; 0xB9; 0x99; 0x99; 0x99; 0x99; 0x99; 0x9A] = 8%nat)
    by reflexivity.
  assert (H2 : Forall (fun b => 0 <= b < 256)
                 [0x3F; 0xB9; 0x99; 0x99; 0x99; 0x99; 0x99; 0x9A])
    by (repeat constructor; lia).
  assert (H3 : decodeFloatStruct [0x3F; 0xB9; 0x99; 0x99; 0x99; 0x99; 0x99; 0x9A] 0 8
               = Ok one_tenth)
    by (vm_compute; reflexivity).
  exact (conj H1 (conj H2 (conj H3
           (encodeFloatStruct_inverts_decodeFloatStruct _ one_tenth H1 H2 H3)))).
Defined.

(** X10: the 4-byte encoding of any number decodes to the number rounded
    to single precision, which is the number itself whenever
    [isFloatPrecision] holds of it. *)
Theorem decodeFloatStruct_encodeFloatStruct_single (x : Number.t) :
  (let* buffer := encodeFloatStruct x 4 in decodeFloatStruct buffer 0 4)
  = Ok (through_float32 x)
  /\ (isFloatPrecision x = true ->
      (let* buffer := encodeFloatStruct x 4 in decodeFloatStruct buffer 0 4) = Ok x).
Proof.
  assert (E : (let* buffer := encodeFloatStruct x 4 in decodeFloatStruct buffer 0 4)
              = Ok (through_float32 x)).
  { rewrite encodeFloatStruct_single. cbn [bind].
    unfold decodeFloatStruct. cbn [Z.eqb Pos.eqb]. apply readFloatBE_writeFloatBE. }
  split; [exact E|]. intros Hfit. rewrite E. f_equal.
  now apply isFloatPrecision_true.
Qed.



Example decodeFloatStruct_unsupported_size :
  decodeFloatStruct [0; 0; 0; 0] 0 3 = Throw (Error "Unsupported float size: 3")
  /\ encodeFloatStruct one_tenth 16 = Throw (Error "Unsupported float size: 16")
  /\ is_RangeError (encodeFloatStruct one_tenth (2 ^ 53)) = true.
Proof. repeat split. Qed.

(** ** [encodeType] on numbers *)

Lemma calculateIntSize_in_range (v : Z) :
  Z.abs v < 2 ^ 63 -> exists w, calculateIntSize (Big v) = Ok w.
Proof.
  intros Hv. unfold calculateIntSize. cbn [negb].
  destruct (Z.ltb_spec v 0); compare_cases; try lia; eexists; reflexivity.
Qed.

Lemma calculateIntSize_too_big (v : Z) :
  2 ^ 63 <= Z.abs v ->
  calculateIntSize (Big v)
  = Throw (RangeError "The input exceeds the range of an 8-byte integer (Int64).").
Proof.
  intros Hv. unfold calculateIntSize. cbn [negb].
  destruct (Z.ltb_spec v 0); compare_cases; try lia; reflexivity.
Qed.

(** The tag of an integer of [w] bytes. *)
Lemma integer_tag (w : Z) :
  In w [1; 2; 4; 8] ->
  high_nibble (Z.lor (Z.shiftl 1 4) (sizeInfo w)) = 1
  /\ 0 <= low_nibble (Z.lor (Z.shiftl 1 4) (sizeInfo w)) <= 3
  /\ 2 ^ low_nibble (Z.lor (Z.shiftl 1 4) (sizeInfo w)) = w.
Proof.
  intros Hw. destruct sizeInfo_values as (I1 & I2 & I4 & I8). simpl in Hw.
  destruct Hw as [<-|[<-|[<-|[<-|[]]]]]; rewrite ?I1, ?I2, ?I4, ?I8;
    vm_compute; repeat split; congruence.
Qed.

Lemma encodeType_integer_sized (x : Number.t) :
  Number.isInteger x = true ->
  Z.abs (Number.truncate x) < 2 ^ 63 ->
  exists w, In w [1; 2; 4; 8] /\ fits w (Number.truncate x)
    /\ encodeType (JNumber x)
       = Ok (Z.lor (Z.shiftl 1 4) (sizeInfo w)
             :: be_bytes (Z.to_nat w) (Number.truncate x)).
Proof.
  intros Hint Hv.
  destruct (calculateIntSize_in_range _ Hv) as [w Hw].
  pose proof (calculateIntSize_sound _ _ Hw) as [Hin Hfit].
  exists w. split; [exact Hin|]. split; [exact Hfit|].
  apply encodeType_integer; [exact Hint|].
  now rewrite calculateIntSize_number.
Qed.

Lemma encodeType_integer_too_big (x : Number.t) :
  Number.isInteger x = true ->
  2 ^ 63 <= Z.abs (Number.truncate x) ->
  encodeType (JNumber x)
  = Throw (RangeError "The input exceeds the range of an 8-byte integer (Int64).").
Proof.
  intros Hint Hv. unfold encodeType.
  rewrite Hint, calculateIntSize_number, calculateIntSize_too_big by assumption.
  reflexivity.
Qed.

Lemma encodeType_real_value (x : Number.t) :
  Number.isInteger x = false ->
  encodeType (JNumber x)
  = Ok (if isFloatPrecision x
        then 0x22 :: be_bytes 4 (bits_of_float Float32.prec Float32.emax
                                   (Float32.of_number x))
        else 0x23 :: be_bytes 8 (bits_of_float Number.prec Number.emax x)).
Proof.
  intros Hint. unfold encodeType. rewrite Hint.
  destruct sizeInfo_values as (_ & _ & I4 & I8).
  destruct (isFloatPrecision x).
  - rewrite I4, encodeFloatStruct_single.
    change (encodeTypeInfoStruct 2 2) with (Ok 0x22). cbn [bind].
    unfold Buffer_from. cbn [map].
    fold (Buffer_from (be_bytes 4 (bits_of_float Float32.prec Float32.emax
                                     (Float32.of_number x)))).
    now rewrite Buffer_from_be_bytes.
  - rewrite I8, encodeFloatStruct_double.
    change (encodeTypeInfoStruct 2 3) with (Ok 0x23). cbn [bind].
    unfold Buffer_from. cbn [map].
    fold (Buffer_from (be_bytes 8 (bits_of_float Number.prec Number.emax x))).
    now rewrite Buffer_from_be_bytes.
Qed.

Lemma encodeType_tag_and_length (data : JsValue) (tag : Z) (payload : Buffer) :
  encodeType data = Ok (tag :: payload) ->
  high_nibble tag = kind data
  /\ Z.of_nat (length payload)
     = if kind data =? 0 then 0 else 2 ^ low_nibble tag.
Proof.
  intros H.
  destruct data as [| |b|x|n|units|sy|f|d|b|items|items|entries];
    try discriminate H.
  - cbn [encodeType] in H. injection H as <- <-. split; reflexivity.
  - destruct b; cbn [encodeType] in H; injection H as <- <-; split; reflexivity.
  - cbn [kind]. destruct (Number.isInteger x) eqn:Hint.
    + destruct (Z_lt_le_dec (Z.abs (Number.truncate x)) (2 ^ 63)) as [Hlt|Hge].
      * destruct (encodeType_integer_sized x Hint Hlt) as (w & Hw & _ & E).
        rewrite E in H. apply Ok_cons_inv in H. destruct H as [-> ->].
        destruct (integer_tag w Hw) as (Hh & _ & Hp).
        split; [exact Hh|]. change (1 =? 0) with false. cbv iota.
        rewrite Hp, be_bytes_length.
        destruct (width_of_nat w Hw) as (k & _ & ->). now rewrite Nat2Z.id.
      * rewrite (encodeType_integer_too_big x Hint Hge) in H. discriminate H.
    + rewrite (encodeType_real_value x Hint) in H.
      destruct (isFloatPrecision x); apply Ok_cons_inv in H;
        destruct H as [-> ->]; rewrite be_bytes_length; split; reflexivity.
  - cbn [encodeType] in H. destruct (is_ascii units); discriminate H.
  - cbn [encodeType] in H. rewrite encodeDateStruct_layout in H.
    apply Ok_cons_inv in H. destruct H as [-> ->].
    rewrite be_bytes_length. split; reflexivity.
Qed.

Lemma encodeType_integers_injective (x y : Number.t) (buffer : Buffer) :
  Number.isInteger x = true -> Number.isInteger y = true ->
  encodeType (JNumber x) = Ok buffer ->
  encodeType (JNumber y) = Ok buffer ->
  Number.truncate x = Number.truncate y.
Proof.
  intros Hx Hy Ex Ey.
  assert (Hbound : forall z, Number.isInteger z = true ->
                             encodeType (JNumber z) = Ok buffer ->
                             Z.abs (Number.truncate z) < 2 ^ 63).
  { intros z Hz Ez.
    destruct (Z_lt_le_dec (Z.abs (Number.truncate z)) (2 ^ 63)) as [Hlt|Hge];
      [exact Hlt|].
    rewrite (encodeType_integer_too_big z Hz Hge) in Ez. discriminate Ez. }
  destruct (encodeType_integer_sized x Hx (Hbound x Hx Ex)) as (w1 & Hw1 & F1 & E1).
  destruct (encodeType_integer_sized y Hy (Hbound y Hy Ey)) as (w2 & Hw2 & F2 & E2).
  rewrite E1 in Ex. rewrite E2 in Ey. rewrite <- Ex in Ey.
  apply Ok_cons_inv in Ey. destruct Ey as [Htag Hbytes].
  destruct (integer_tag w1 Hw1) as (_ & _ & P1).
  destruct (integer_tag w2 Hw2) as (_ & _ & P2).
  assert (Hw : w1 = w2) by congruence. subst w2.
  destruct (width_of_nat w1 Hw1) as (n & Hn & ->).
  rewrite Nat2Z.id in Hbytes.
  pose proof (decodeInt_width n _ Hn F1) as D1.
  pose proof (decodeInt_width n _ Hn F2) as D2.
  rewrite Hbytes in D1. congruence.
Qed.

Lemma encodeType_real_decodes (x : Number.t) :
  valid_binary Number.prec Number.emax x = true ->
  Number.isInteger x = false ->
  exists tag payload,
    encodeType (JNumber x) = Ok (tag :: payload)
    /\ high_nibble tag = 2
    /\ Z.of_nat (length payload) = 2 ^ low_nibble tag
    /\ decodeFloatStruct payload 0 (2 ^ low_nibble tag) = Ok x.
Proof.
  intros Hv Hint. rewrite (encodeType_real_value x Hint).
  destruct (isFloatPrecision x) eqn:Hfit.
  - eexists _, _. split; [reflexivity|]. split; [reflexivity|].
    split; [now rewrite be_bytes_length|].
    change (2 ^ low_nibble 34) with 4. unfold decodeFloatStruct. cbn [Z.eqb Pos.eqb].
    rewrite readFloatBE_writeFloatBE. f_equal. now apply isFloatPrecision_true.
  - eexists _, _. split; [reflexivity|]. split; [reflexivity|].
    split; [now rewrite be_bytes_length|].
    change (2 ^ low_nibble 35) with 8. unfold decodeFloatStruct. cbn [Z.eqb Pos.eqb].
    now apply readDoubleBE_writeDoubleBE.
Qed.

(** C7: for a finite number [x] that is not an integer, [encodeType]
    returns a tag byte of high nibble 2 followed by the big-endian IEEE-754
    image of [x]: low nibble 2 and the 4-byte binary32 image when
    [isFloatPrecision x] (the conversion to binary32 then loses nothing),
    low nibble 3 and the 8-byte binary64 image otherwise.  The image is
    pinned twice: the number its bytes spell, most significant byte first,
    is made up of the sign, the biased exponent and the trailing
    significand of [x]; and [decodeFloatStruct] reads [x] back from it. *)
Theorem encodeType_real (x : Number.t) :
  valid_binary Number.prec Number.emax x = true ->
  Number.isFinite x = true ->
  Number.isInteger x = false ->
  exists tag payload,
    encodeType (JNumber x) = Ok (tag :: payload)
    /\ high_nibble tag = 2
    /\ Forall (fun b => 0 <= b < 256) payload
    /\ if isFloatPrecision x
       then low_nibble tag = 2
            /\ length payload = 4%nat
            /\ Float32.to_number (Float32.of_number x) = x
            /\ be_value payload
               = assemble Float32.prec Float32.emax
                   (sign_bit (sign_of (Float32.of_number x)))
                   (fst (fields Float32.prec Float32.emax (Float32.of_number x)))
                   (snd (fields Float32.prec Float32.emax (Float32.of_number x)))
            /\ decodeFloatStruct payload 0 4 = Ok x
       else low_nibble tag = 3
            /\ length payload = 8%nat
            /\ be_value payload
               = assemble Number.prec Number.emax
                   (sign_bit (sign_of x))
                   (fst (fields Number.prec Number.emax x))
                   (snd (fields Number.prec Number.emax x))
            /\ decodeFloatStruct payload 0 8 = Ok x.
Proof.
  intros Hv _ Hint. rewrite (encodeType_real_value x Hint).
  destruct (isFloatPrecision x) eqn:Hfit.
  - eexists _, _. split; [reflexivity|]. split; [reflexivity|].
    split; [apply be_bytes_range|]. split; [reflexivity|].
    split; [apply be_bytes_length|].
    split; [now apply isFloatPrecision_true|]. split.
    + rewrite be_value_be_bytes, Z.mod_small.
      * apply bits_of_float_assemble; reflexivity.
      * rewrite <- single_span.
        apply (bits_of_float_range Float32.prec Float32.emax);
          try reflexivity. apply Float32_of_number_valid.
    + unfold decodeFloatStruct. cbn [Z.eqb Pos.eqb].
      rewrite readFloatBE_writeFloatBE. f_equal. now apply isFloatPrecision_true.
  - eexists _, _. split; [reflexivity|]. split; [reflexivity|].
    split; [apply be_bytes_range|]. split; [reflexivity|].
    split; [apply be_bytes_length|]. split.
    + rewrite be_value_be_bytes, Z.mod_small.
      * apply bits_of_float_assemble; reflexivity.
      * rewrite <- double_span.
        apply (bits_of_float_range Number.prec Number.emax);
          try reflexivity. exact Hv.
    + unfold decodeFloatStruct. cbn [Z.eqb Pos.eqb].
      now apply readDoubleBE_writeDoubleBE.
Qed.

(** The theorem at [0.1], which takes the 8-byte branch. *)
Lemma encodeType_real_witness :
  valid_binary Number.prec Number.emax one_tenth = true
  /\ Number.isFinite one_tenth = true /\ Number.isInteger one_tenth = false /\
  exists tag payload,
    encodeType (JNumber one_tenth) = Ok (tag :: payload)
    /\ high_nibble tag = 2
    /\ Forall (fun b => 0 <= b < 256) payload
    /\ if isFloatPrecision one_tenth
       then low_nibble tag = 2
            /\ length payload = 4%nat
            /\ Float32.to_number (Float32.of_number one_tenth) = one_tenth
            /\ be_value payload
               = assemble Float32.prec Float32.emax
                   (sign_bit (sign_of (Float32.of_number one_tenth)))
                   (fst (fields Float32.prec Float32.emax (Float32.of_number one_tenth)))
                   (snd (fields Float32.prec Float32.emax (Float32.of_number one_tenth)))
            /\ decodeFloatStruct payload 0 4 = Ok one_tenth
       else low_nibble tag = 3
            /\ length payload = 8%nat
            /\ be_value payload
               = assemble Number.prec Number.emax
                   (sign_bit (sign_of one_tenth))
                   (fst (fields Number.prec Number.emax one_tenth))
                   (snd (fields Number.prec Number.emax one_tenth))
            /\ decodeFloatStruct payload 0 8 = Ok one_tenth.
Proof.
  assert (H1 : valid_binary Number.prec Number.emax one_tenth = true)
    by (vm_compute; reflexivity).
  assert (H2 : Number.isFinite one_tenth = true) by reflexivity.
  assert (H3 : Number.isInteger one_tenth = false) by reflexivity.
  exact (conj H1 (conj H2 (conj H3 (encodeType_real one_tenth H1 H2 H3)))).
Defined.

(** X12: an integer-valued number of magnitude below [2^63] survives
    [encodeType]: the result is a tag with high nibble 1 and low nibble
    [k] within 0..3, followed by [2^k] bytes from which [decodeInt] with
    the size [2^k] reads the integer back. *)
Theorem encodeType_integer_roundtrip (x : Number.t) :
  Number.isInteger x = true ->
  Z.abs (Number.truncate x) < 2 ^ 63 ->
  exists tag bytes,
    encodeType (JNumber x) = Ok (tag :: bytes)
    /\ high_nibble tag = 1
    /\ 0 <= low_nibble tag <= 3
    /\ Z.of_nat (length bytes) = 2 ^ low_nibble tag
    /\ decodeInt bytes (2 ^ low_nibble tag) = Ok (Number.truncate x).
Proof.
  intros Hint Hv.
  destruct (encodeType_integer_sized x Hint Hv) as (w & Hw & Hfit & E).
  destruct (integer_tag w Hw) as (Hh & Hl & Hp).
  eexists _, _. split; [exact E|]. split; [exact Hh|]. split; [exact Hl|].
  rewrite Hp. destruct (width_of_nat w Hw) as (n & Hn & ->).
  rewrite Nat2Z.id, be_bytes_length. split; [reflexivity|].
  now apply decodeInt_width.
Qed.

Lemma encodeType_integer_roundtrip_witness :
  Number.isInteger (Number.of_Z (-300)) = true
  /\ Z.abs (Number.truncate (Number.of_Z (-300))) < 2 ^ 63
  /\ exists tag bytes,
       encodeType (JNumber (Number.of_Z (-300))) = Ok (tag :: bytes)
       /\ high_nibble tag = 1
       /\ 0 <= low_nibble tag <= 3
       /\ Z.of_nat (length bytes) = 2 ^ low_nibble tag
       /\ decodeInt bytes (2 ^ low_nibble tag)
          = Ok (Number.truncate (Number.of_Z (-300))).
Proof.
  assert (H1 : Number.isInteger (Number.of_Z (-300)) = true)
    by (vm_compute; reflexivity).
  assert (H2 : Z.abs (Number.truncate (Number.of_Z (-300))) < 2 ^ 63)
    by (vm_compute; reflexivity).
  exact (conj H1 (conj H2
           (encodeType_integer_roundtrip (Number.of_Z (-300)) H1 H2))).
Defined.

(** X13: a number that is not an integer (NaN and the infinities
    included) survives [encodeType]: the result is a tag with high nibble
    2 and low nibble [k], followed by [2^k] bytes from which
    [decodeFloatStruct] with the size [2^k] reads the very number back;
    the choice of four bytes by [isFloatPrecision] loses nothing. *)
Theorem encodeType_real_roundtrip (x : Number.t) :
  valid_binary Number.prec Number.emax x = true ->
  Number.isInteger x = false ->
  exists tag payload,
    encodeType (JNumber x) = Ok (tag :: payload)
    /\ high_nibble tag = 2
    /\ Z.of_nat (length payload) = 2 ^ low_nibble tag
    /\ decodeFloatStruct payload 0 (2 ^ low_nibble tag) = Ok x.
Proof. exact (encodeType_real_decodes x). Qed.

Lemma encodeType_real_roundtrip_witness :
  valid_binary Number.prec Number.emax one_and_half = true
  /\ Number.isInteger one_and_half = false
  /\ exists tag payload,
       encodeType (JNumber one_and_half) = Ok (tag :: payload)
       /\ high_nibble tag = 2
       /\ Z.of_nat (length payload) = 2 ^ low_nibble tag
       /\ decodeFloatStruct payload 0 (2 ^ low_nibble tag) = Ok one_and_half.
Proof.
  assert (H1 : valid_binary Number.prec Number.emax one_and_half = true)
    by (vm_compute; reflexivity).
  assert (H2 : Number.isInteger one_and_half = false)
    by (vm_compute; reflexivity).
  exact (conj H1 (conj H2 (encodeType_real_roundtrip one_and_half H1 H2))).
Defined.

(** X14: when [encodeType] throws.  It throws the "Unsupported type"
    [Error] exactly on [undefined], a bigint, a symbol and a function, and
    the [RangeError] of [calculateIntSize] exactly on an integer-valued
    number of magnitude at least [2^63]; on every other value it returns
    a buffer. *)
Theorem encodeType_failures (data : JsValue) (e : JsError) :
  encodeType data = Throw e
  <-> (In (typeof data) ["undefined"; "bigint"; "symbol"; "function"]%string
       /\ e = Error "Unsupported type")
      \/ (exists x, data = JNumber x
                    /\ Number.isInteger x = true
                    /\ 2 ^ 63 <= Z.abs (Number.truncate x)
                    /\ e = RangeError "The input exceeds the range of an 8-byte integer (Int64).").
Proof.
  split.
  - intros H.
    destruct data as [| |b|x|n|units|sy|f|d|b|items|items|entries];
      cbn [typeof In].
    + discriminate H.
    + left. cbn [encodeType] in H. injection H as <-. auto.
    + destruct b; discriminate H.
    + right. exists x. split; [reflexivity|].
      destruct (Number.isInteger x) eqn:Hint.
      * split; [reflexivity|].
        destruct (Z_lt_le_dec (Z.abs (Number.truncate x)) (2 ^ 63)) as [Hlt|Hge].
        -- destruct (encodeType_integer_sized x Hint Hlt) as (w & _ & _ & E).
           rewrite E in H. discriminate H.
        -- split; [exact Hge|].
           rewrite (encodeType_integer_too_big x Hint Hge) in H. congruence.
      * rewrite (encodeType_real_value x Hint) in H. discriminate H.
    + left. cbn [encodeType] in H. injection H as <-. auto.
    + cbn [encodeType] in H. destruct (is_ascii units); discriminate H.
    + left. cbn [encodeType] in H. injection H as <-. auto 10.
    + left. cbn [encodeType] in H. injection H as <-. auto 10.
    + cbn [encodeType] in H. rewrite encodeDateStruct_layout in H.
      discriminate H.
    + discriminate H.
    + discriminate H.
    + discriminate H.
    + discriminate H.
  - intros [[Ht ->]|(x & -> & Hint & Hv & ->)].
    + destruct data as [| |b|x|n|units|sy|f|d|b|items|items|entries];
        cbn [typeof In] in Ht; try reflexivity;
        repeat (destruct Ht as [Ht|Ht]; try discriminate Ht); contradiction.
    + now apply encodeType_integer_too_big.
Qed.

(** X15: a non-empty result of [encodeType] describes itself.  The high
    nibble of its first byte tells the kind of the value (1 an integer, 2
    a real, 3 a date, 0 [null] or a boolean), and unless the kind is 0 the
    low nibble [k] tells the length [2^k] of what follows; a reader can
    therefore skip any encoded number or date without decoding it. *)
Theorem encodeType_self_describing (data : JsValue) (tag : Z) (payload : Buffer) :
  encodeType data = Ok (tag :: payload) ->
  high_nibble tag = kind data
  /\ Z.of_nat (length payload)
     = if kind data =? 0 then 0 else 2 ^ low_nibble tag.
Proof. exact (encodeType_tag_and_length data tag payload). Qed.

Lemma encodeType_self_describing_witness :
  encodeType (JNumber (Number.of_Z 300)) = Ok (0x11 :: [0x01; 0x2C])
  /\ high_nibble 0x11 = kind (JNumber (Number.of_Z 300))
  /\ Z.of_nat (length [0x01; 0x2C])
     = if kind (JNumber (Number.of_Z 300)) =? 0 then 0 else 2 ^ low_nibble 0x11.
Proof.
  assert (H : encodeType (JNumber (Number.of_Z 300)) = Ok (0x11 :: [0x01; 0x2C]))
    by (vm_compute; reflexivity).
  exact (conj H (encodeType_self_describing _ _ _ H)).
Defined.

(** X16: [encodeType] tells numbers apart: two numbers with the same
    encoding are the same number, or are both integers of the same value
    (as [+0] and [-0] are, both written as the integer 0). *)
Theorem encodeType_numbers_injective (x y : Number.t) (buffer : Buffer) :
  valid_binary Number.prec Number.emax x = true ->
  valid_binary Number.prec Number.emax y = true ->
  encodeType (JNumber x) = Ok buffer ->
  encodeType (JNumber y) = Ok buffer ->
  x = y
  \/ (Number.isInteger x = true /\ Number.isInteger y = true
      /\ Number.truncate x = Number.truncate y).
Proof.
  intros Vx Vy Ex Ey.
  destruct buffer as [|tag payload].
  { destruct (Number.isInteger x) eqn:Hx.
    - destruct (Z_lt_le_dec (Z.abs (Number.truncate x)) (2 ^ 63)) as [Hlt|Hge].
      + destruct (encodeType_integer_sized x Hx Hlt) as (w & _ & _ & E).
        rewrite E in Ex. discriminate Ex.
      + rewrite (encodeType_integer_too_big x Hx Hge) in Ex. discriminate Ex.
    - rewrite (encodeType_real_value x Hx) in Ex.
      destruct (isFloatPrecision x); discriminate Ex. }
  pose proof (encodeType_tag_and_length _ _ _ Ex) as [Kx _].
  pose proof (encodeType_tag_and_length _ _ _ Ey) as [Ky _].
  cbn [kind] in Kx, Ky.
  destruct (Number.isInteger x) eqn:Hx, (Number.isInteger y) eqn:Hy; try congruence.
  - right. split; [reflexivity|]. split; [reflexivity|].
    now apply (encodeType_integers_injective x y (tag :: payload)).
  - left.
    destruct (encodeType_real_decodes x Vx Hx) as (t1 & p1 & E1 & _ & _ & D1).
    destruct (encodeType_real_decodes y Vy Hy) as (t2 & p2 & E2 & _ & _ & D2).
    rewrite Ex in E1. rewrite Ey in E2.
    apply Ok_cons_inv in E1. destruct E1 as [-> ->].
    apply Ok_cons_inv in E2. destruct E2 as [-> ->].
    congruence.
Qed.

Lemma encodeType_numbers_injective_witness :
  valid_binary Number.prec Number.emax (S754_zero false) = true
  /\ valid_binary Number.prec Number.emax (S754_zero true) = true
  /\ encodeType (JNumber (S754_zero false)) = Ok [0x10; 0x00]
  /\ encodeType (JNumber (S754_zero true)) = Ok [0x10; 0x00]
  /\ (S754_zero false = S754_zero true
      \/ (Number.isInteger (S754_zero false) = true
          /\ Number.isInteger (S754_zero true) = true
          /\ Number.truncate (S754_zero false) = Number.truncate (S754_zero true))).
Proof.
  assert (H1 : valid_binary Number.prec Number.emax (S754_zero false) = true)
    by reflexivity.
  assert (H2 : valid_binary Number.prec Number.emax (S754_zero true) = true)
    by reflexivity.
  assert (H3 : encodeType (JNumber (S754_zero false)) = Ok [0x10; 0x00])
    by (vm_compute; reflexivity).
  assert (H4 : encodeType (JNumber (S754_zero true)) = Ok [0x10; 0x00])
    by (vm_compute; reflexivity).
  exact (conj H1 (conj H2 (conj H3 (conj H4
           (encodeType_numbers_injective _ _ _ H1 H2 H3 H4))))).
Defined.

(** ** What [decodeDateStruct] reads *)

(** X17: [decodeDateStruct] reads the eight bytes after [offset] and
    nothing else: it throws a [RangeError] when [offset + 1] is negative
    or fewer than nine bytes lie at [offset], and neither the tag byte nor
    what follows the payload changes the result, in any time zone. *)
Theorem decodeDateStruct_reads_payload (tz : TimeZone) (buffer : Buffer) (offset : Z) :
  ((offset < -1 \/ Z.of_nat (length buffer) < offset + 9) ->
   is_RangeError (decodeDateStruct tz buffer offset) = true)
  /\ (forall tag tag' payload rest,
         length payload = 8%nat ->
         decodeDateStruct tz (tag :: payload ++ rest) 0
         = decodeDateStruct tz (tag' :: payload) 0).
Proof.
  split.
  - intros Hshort. unfold decodeDateStruct, readDoubleBE.
    rewrite slice_short by (cbn; lia). reflexivity.
  - intros tag tag' payload rest Hlen. unfold decodeDateStruct, readDoubleBE.
    change (0 + 1) with 1.
    rewrite (slice_payload tag payload rest 8 Hlen).
    pose proof (slice_payload tag' payload [] 8 Hlen) as Hs.
    rewrite app_nil_r in Hs. now rewrite Hs.
Qed.

(** ** Integers held exactly *)

Lemma Zdigits2_pos (B : Z) : 0 < B -> 0 < Zdigits2 B.
Proof. destruct B; cbn; lia. Qed.

Lemma Zdigits2_mul_pow2 (B k : Z) :
  0 < B -> 0 <= k -> Zdigits2 (B * 2 ^ k) = Zdigits2 B + k.
Proof.
  intros HB Hk. pose proof (Zdigits2_bounds B HB) as Hb.
  pose proof (Zdigits2_pos B HB) as Hd.
  assert (Hp : 0 < 2 ^ k) by (apply Z.pow_pos_nonneg; lia).
  apply Zdigits2_unique; [|nia].
  replace (Zdigits2 B + k - 1) with ((Zdigits2 B - 1) + k) by lia.
  rewrite !Z.pow_add_r by lia. nia.
Qed.

Lemma Zdigits2_le (B d : Z) : 0 < B -> B < 2 ^ d -> 0 <= d -> Zdigits2 B <= d.
Proof.
  intros HB Hlt Hd. pose proof (Zdigits2_bounds B HB) as Hb.
  destruct (Z_le_gt_dec (Zdigits2 B) d); [assumption|].
  assert (2 ^ d <= 2 ^ (Zdigits2 B - 1)) by (apply Z.pow_le_mono_r; lia). lia.
Qed.

Lemma shr_1_even (q : Z) :
  0 <= q ->
  shr_1 {| shr_m := 2 * q; shr_r := false; shr_s := false |}
  = {| shr_m := q; shr_r := false; shr_s := false |}.
Proof. destruct q as [|p|p]; [reflexivity | reflexivity | lia]. Qed.

Lemma shr_iter_exact (n : nat) (q : Z) :
  0 <= q ->
  Nat.iter n shr_1 {| shr_m := q * 2 ^ Z.of_nat n; shr_r := false; shr_s := false |}
  = {| shr_m := q; shr_r := false; shr_s := false |}.
Proof.
  revert q. induction n as [|n IH]; intros q Hq.
  - cbn [Nat.iter]. change (Z.of_nat 0) with 0.
    now rewrite Z.pow_0_r, Z.mul_1_r.
  - rewrite Nat.iter_succ_r.
    replace (q * 2 ^ Z.of_nat (S n)) with (2 * (q * 2 ^ Z.of_nat n))
      by (rewrite Nat2Z.inj_succ, Z.pow_succ_r by lia; ring).
    rewrite shr_1_even by (apply Z.mul_nonneg_nonneg; [lia | apply Z.pow_nonneg; lia]).
    now apply IH.
Qed.

Lemma shr_exact (q e n : Z) :
  0 <= q -> 0 <= n ->
  shr {| shr_m := q * 2 ^ n; shr_r := false; shr_s := false |} e n
  = ({| shr_m := q; shr_r := false; shr_s := false |}, e + n).
Proof.
  intros Hq Hn. destruct n as [|p|p]; [| |lia].
  - cbn [shr]. now rewrite Z.add_0_r, Z.pow_0_r, Z.mul_1_r.
  - cbn [shr]. f_equal. rewrite iter_pos_nat.
    rewrite <- (positive_nat_Z p) at 1. now apply shr_iter_exact.
Qed.

Lemma shiftl_case (s m : Z) :
  0 < s ->
  match s with
  | 0 => m
  | Z.pos _ => IntDef.Z.shiftl m s
  | Z.neg _ => 0
  end = m * 2 ^ s.
Proof.
  intros Hs. destruct s as [|p|p]; try lia.
  change (IntDef.Z.shiftl m (Z.pos p)) with (Z.shiftl m (Z.pos p)).
  apply Z.shiftl_mul_pow2. lia.
Qed.

Section ExactIntegers.

Variables prec emax : Z.
Hypothesis Hprec : 1 < prec.
Hypothesis Hemax : prec + 2 <= emax.

Lemma fexp_integer (d : Z) : 0 < d -> fexp prec emax d = d - prec.
Proof. intros Hd. unfold fexp, emin. lia. Qed.

(** A mantissa that spells the integer [B] at an exponent no coarser than
    the canonical one is rounded to [B] itself. *)
Lemma binary_round_aux_exact (s : bool) (B m e : Z) :
  0 < B < 2 ^ prec ->
  e <= Zdigits2 B - prec ->
  m = B * 2 ^ (- e) ->
  binary_round_aux prec emax s m e loc_Exact = normal_of_Z prec s B.
Proof.
  intros HB He Hm.
  pose proof (Zdigits2_pos B ltac:(lia)) as Hd0.
  pose proof (Zdigits2_le B prec ltac:(lia) ltac:(lia) ltac:(lia)) as Hd.
  set (d := Zdigits2 B) in *.
  assert (Hdm : Zdigits2 m = d - e).
  { rewrite Hm, Zdigits2_mul_pow2 by lia. fold d. lia. }
  assert (Hm1 : m = (B * 2 ^ (prec - d)) * 2 ^ (d - prec - e)).
  { rewrite Hm, <- Z.mul_assoc, <- Z.pow_add_r by lia. do 2 f_equal. lia. }
  assert (Hn : 0 < B * 2 ^ (prec - d))
    by (apply Z.mul_pos_pos; [lia | apply Z.pow_pos_nonneg; lia]).
  unfold binary_round_aux, shr_fexp.
  rewrite Hdm. replace (d - e + e) with d by lia.
  rewrite fexp_integer by lia.
  cbn [shr_record_of_loc]. rewrite Hm1 at 1.
  rewrite shr_exact by lia.
  cbn [shr_m loc_of_shr_record round_nearest_even].
  rewrite (Zdigits2_mul_pow2 B (prec - d)) by lia. fold d.
  replace (d + (prec - d) + (e + (d - prec - e))) with d by lia.
  rewrite fexp_integer by lia.
  replace (d - prec - (e + (d - prec - e))) with 0 by lia.
  cbn [shr shr_m].
  unfold normal_of_Z. fold d.
  destruct (B * 2 ^ (prec - d)) as [|p|p] eqn:Ep; try lia.
  replace (e + (d - prec - e)) with (d - prec) by lia.
  destruct (Z.leb_spec (d - prec) (emax - prec)); [reflexivity | lia].
Qed.

Lemma binary_round_exact (s : bool) (B : Z) (m : positive) (e : Z) :
  0 < B < 2 ^ prec ->
  e <= 0 ->
  Z.pos m = B * 2 ^ (- e) ->
  binary_round prec emax s m e = normal_of_Z prec s B.
Proof.
  intros HB He Hm.
  pose proof (Zdigits2_pos B ltac:(lia)) as Hd0.
  unfold binary_round, shl_align.
  change (Z.pos (digits2_pos m)) with (Zdigits2 (Z.pos m)).
  rewrite Hm, Zdigits2_mul_pow2 by lia.
  replace (Zdigits2 B + - e + e) with (Zdigits2 B) by lia.
  rewrite fexp_integer by lia.
  destruct (Zdigits2 B - prec - e) as [|d|d] eqn:Ed.
  - apply binary_round_aux_exact; [lia | lia | rewrite <- Hm; reflexivity].
  - apply binary_round_aux_exact; [lia | lia | rewrite <- Hm; reflexivity].
  - apply binary_round_aux_exact; [lia | lia |].
    rewrite pos_iter_xO, Hm, <- Z.mul_assoc, <- Z.pow_add_r by lia.
    do 2 f_equal. lia.
Qed.

Lemma binary_normalize_exact (K e : Z) (D : Z) :
  0 < Z.abs K < 2 ^ prec -> e <= 0 -> D = K * 2 ^ (- e) ->
  binary_normalize prec emax D e false = normal_of_Z prec (K <? 0) (Z.abs K).
Proof.
  intros HK He HD.
  assert (Hp : 0 < 2 ^ (- e)) by (apply Z.pow_pos_nonneg; lia).
  unfold binary_normalize.
  destruct D as [|p|p].
  - assert (K = 0) by nia. lia.
  - assert (0 < K) by nia.
    destruct (Z.ltb_spec K 0); [lia|].
    apply binary_round_exact; [lia | lia |]. rewrite HD. f_equal. lia.
  - assert (K < 0) by nia.
    destruct (Z.ltb_spec K 0); [|lia].
    apply binary_round_exact; [lia | lia |].
    replace (Z.abs K) with (- K) by lia.
    rewrite Z.mul_opp_l, <- HD. reflexivity.
Qed.

Lemma normal_of_Z_mantissa (B : Z) :
  0 < B < 2 ^ prec ->
  0 < B * 2 ^ (prec - Zdigits2 B)
  /\ Z.pos (Z.to_pos (B * 2 ^ (prec - Zdigits2 B))) = B * 2 ^ (prec - Zdigits2 B)
  /\ 0 < Zdigits2 B <= prec.
Proof.
  intros HB.
  pose proof (Zdigits2_pos B ltac:(lia)) as Hd0.
  pose proof (Zdigits2_le B prec ltac:(lia) ltac:(lia) ltac:(lia)) as Hd.
  assert (Hn : 0 < B * 2 ^ (prec - Zdigits2 B))
    by (apply Z.mul_pos_pos; [lia | apply Z.pow_pos_nonneg; lia]).
  split; [exact Hn|]. split; [now apply Z2Pos.id | lia].
Qed.

Lemma shl_align_value (m : positive) (e e' : Z) :
  e' <= e -> Z.pos (fst (shl_align m e e')) = Z.pos m * 2 ^ (e - e').
Proof.
  intros He. unfold shl_align.
  destruct (e' - e) as [|d|d] eqn:Ed; cbn [fst]; try lia.
  - replace (e - e') with 0 by lia. cbn. lia.
  - rewrite pos_iter_xO. do 2 f_equal. lia.
Qed.

(** Subtraction of two integers held exactly is exact when the difference
    can be held. *)
Lemma SFsub_exact (a b : Z) :
  0 < Z.abs a < 2 ^ prec -> 0 < Z.abs b < 2 ^ prec ->
  0 < Z.abs (a - b) < 2 ^ prec ->
  SFsub prec emax (normal_of_Z prec (a <? 0) (Z.abs a))
                  (normal_of_Z prec (b <? 0) (Z.abs b))
  = normal_of_Z prec (a - b <? 0) (Z.abs (a - b)).
Proof.
  intros Ha Hb Hab.
  destruct (normal_of_Z_mantissa (Z.abs a) Ha) as (Pa & Ma & Da).
  destruct (normal_of_Z_mantissa (Z.abs b) Hb) as (Pb & Mb & Db).
  unfold normal_of_Z at 1 2. cbn [SFsub].
  set (ea := Zdigits2 (Z.abs a) - prec) in *.
  set (eb := Zdigits2 (Z.abs b) - prec) in *.
  change (IntDef.Z.min ea eb) with (Z.min ea eb).
  set (ez := Z.min ea eb).
  assert (Hez : ez <= ea /\ ez <= eb /\ ez <= 0) by (unfold ez, ea, eb; lia).
  rewrite !shl_align_value, Ma, Mb by lia.
  apply binary_normalize_exact; [lia | lia |].
  replace (prec - Zdigits2 (Z.abs a)) with (- ea) by (unfold ea; lia).
  replace (prec - Zdigits2 (Z.abs b)) with (- eb) by (unfold eb; lia).
  rewrite <- !Z.mul_assoc, <- !Z.pow_add_r by lia.
  replace (- ea + (ea - ez)) with (- ez) by lia.
  replace (- eb + (eb - ez)) with (- ez) by lia.
  destruct (Z.ltb_spec a 0), (Z.ltb_spec b 0); cbn [cond_Zopp]; nia.
Qed.

Lemma div_eucl_exact (q b : Z) : 0 < b -> Z.div_eucl (q * b) b = (q, 0).
Proof.
  intros Hb. destruct (Z.div_eucl (q * b) b) as [q' r'] eqn:E.
  assert (E1 : q' = (q * b) / b) by (unfold Z.div; now rewrite E).
  assert (E2 : r' = (q * b) mod b) by (unfold Z.modulo; now rewrite E).
  rewrite Z.div_mul in E1 by lia. rewrite Z.mod_mul in E2 by lia. congruence.
Qed.

Lemma new_location_exact (n : Z) : new_location n 0 = loc_Exact.
Proof. unfold new_location. now destruct (IntDef.Z.even n). Qed.

Lemma SFdiv_core_exact (m1 e1 m2 e2 q : Z) :
  Zdigits2 m1 = prec -> Zdigits2 m2 = prec ->
  emin prec emax <= e1 - e2 - prec ->
  0 < m2 ->
  m1 * 2 ^ prec = q * m2 ->
  SFdiv_core_binary prec emax m1 e1 m2 e2 = (q, e1 - e2 - prec, loc_Exact).
Proof.
  intros H1 H2 Hmin Hm2 Hq. unfold SFdiv_core_binary. rewrite H1, H2.
  assert (He : IntDef.Z.min (fexp prec emax (prec + e1 - (prec + e2))) (e1 - e2)
               = e1 - e2 - prec).
  { change IntDef.Z.min with Z.min. unfold fexp. lia. }
  cbv zeta. rewrite !He.
  replace (e1 - e2 - (e1 - e2 - prec)) with prec by lia.
  rewrite shiftl_case by lia.
  change IntDef.Z.div_eucl with Z.div_eucl.
  rewrite Hq, div_eucl_exact by lia. now rewrite new_location_exact.
Qed.

(** Division of a multiple of [b] by [b], both held exactly, is exact. *)
Lemma SFdiv_exact (sq : bool) (Q b : Z) :
  0 < Q -> 0 < b < 2 ^ prec -> Q * b < 2 ^ prec ->
  SFdiv prec emax (normal_of_Z prec sq (Q * b)) (normal_of_Z prec false b)
  = normal_of_Z prec sq Q.
Proof.
  intros HQ Hb HA.
  assert (HA0 : 0 < Q * b < 2 ^ prec) by nia.
  destruct (normal_of_Z_mantissa (Q * b) HA0) as (PA & MA & DA).
  destruct (normal_of_Z_mantissa b Hb) as (Pb & Mb & Db).
  assert (HQ' : 0 < Q < 2 ^ prec) by nia.
  destruct (normal_of_Z_mantissa Q HQ') as (PQ & MQ & DQ).
  assert (Hdigits : Zdigits2 (Q * b) <= Zdigits2 Q + Zdigits2 b).
  { apply Zdigits2_le; [lia | | lia].
    pose proof (Zdigits2_bounds Q ltac:(lia)).
    pose proof (Zdigits2_bounds b ltac:(lia)).
    rewrite Z.pow_add_r by lia. nia. }
  unfold normal_of_Z at 1 2. cbn [SFdiv].
  rewrite MA, Mb.
  set (dA := Zdigits2 (Q * b)) in *. set (db := Zdigits2 b) in *.
  rewrite (SFdiv_core_exact _ _ _ _ (Q * 2 ^ (prec - dA + db))).
  - rewrite xorb_false_r.
    replace (dA - prec - (db - prec) - prec) with (dA - db - prec) by lia.
    apply binary_round_aux_exact; [lia | fold db; lia |].
    do 2 f_equal. lia.
  - unfold dA. rewrite Zdigits2_mul_pow2 by lia. lia.
  - unfold db. rewrite Zdigits2_mul_pow2 by lia. lia.
  - unfold emin. lia.
  - lia.
  - replace (prec - dA + db) with ((prec - dA) + db) by lia.
    replace (2 ^ prec) with (2 ^ db * 2 ^ (prec - db))
      by (rewrite <- Z.pow_add_r by lia; f_equal; lia).
    rewrite Z.pow_add_r by lia. ring.
Qed.

End ExactIntegers.

(** ** Integers as numbers *)

Lemma Number_spans : 1 < Number.prec /\ Number.prec + 2 <= Number.emax.
Proof. split; [reflexivity | discriminate]. Qed.

Lemma of_Z_normal (k : Z) :
  0 < Z.abs k < 2 ^ 53 ->
  Number.of_Z k = normal_of_Z Number.prec (k <? 0) (Z.abs k).
Proof.
  intros Hk. destruct Number_spans as [H1 H2]. unfold Number.of_Z.
  apply binary_normalize_exact; try assumption; [lia|].
  change (2 ^ (- 0)) with 1. lia.
Qed.

Lemma truncate_of_Z (k : Z) :
  Z.abs k < 2 ^ 53 ->
  Number.truncate (Number.of_Z k) = k
  /\ Number.isInteger (Number.of_Z k) = true
  /\ Number.isFinite (Number.of_Z k) = true.
Proof.
  intros Hk. destruct (Z.eq_dec k 0) as [->|Hnz]; [repeat split|].
  rewrite of_Z_normal by lia. destruct Number_spans as [H1 H2].
  destruct (normal_of_Z_mantissa Number.prec H1 (Z.abs k) ltac:(change Number.prec with 53; lia))
    as (Pm & Mm & Dm).
  unfold normal_of_Z, Number.truncate, Number.isInteger, Number.isFinite.
  rewrite Mm.
  set (d := Zdigits2 (Z.abs k)) in *.
  assert (Hp : 0 < 2 ^ (Number.prec - d)) by (apply Z.pow_pos_nonneg; lia).
  replace (- (d - Number.prec)) with (Number.prec - d) by lia.
  destruct (Z.leb_spec 0 (d - Number.prec)) as [H0|H0].
  - replace (d - Number.prec) with 0 by lia.
    replace (Number.prec - d) with 0 by lia.
    rewrite Z.pow_0_r, !Z.mul_1_r. split; [|split; reflexivity].
    destruct (Z.ltb_spec k 0); cbn [cond_Zopp]; lia.
  - rewrite Z.div_mul, Z.mod_mul by lia. split; [|split; reflexivity].
    destruct (Z.ltb_spec k 0); cbn [cond_Zopp]; lia.
Qed.

Lemma of_Z_valid (k : Z) :
  valid_binary Number.prec Number.emax (Number.of_Z k) = true.
Proof.
  unfold Number.of_Z, binary_normalize.
  destruct k as [|p|p]; [reflexivity | |]; apply binary_round_valid; reflexivity.
Qed.

Lemma sub_of_Z (a b : Z) :
  Z.abs a < 2 ^ 53 -> Z.abs b < 2 ^ 53 -> Z.abs (a - b) < 2 ^ 53 ->
  Number.sub (Number.of_Z a) (Number.of_Z b) = Number.of_Z (a - b).
Proof.
  intros Ha Hb Hab. destruct Number_spans as [H1 H2].
  destruct (Z.eq_dec b 0) as [->|Hb0].
  { rewrite Z.sub_0_r. change (Number.of_Z 0) with (S754_zero false).
    destruct (Z.eq_dec a 0) as [->|Ha0]; [reflexivity|].
    rewrite of_Z_normal by lia. reflexivity. }
  destruct (Z.eq_dec a 0) as [->|Ha0].
  { change (Number.of_Z 0) with (S754_zero false).
    rewrite !of_Z_normal by lia. cbn [Z.sub Z.add Z.opp].
    unfold Number.sub, normal_of_Z. cbn [SFsub Z.sub Z.add].
    rewrite Z.abs_opp.
    replace (- b <? 0) with (negb (b <? 0)); [reflexivity|].
    destruct (Z.ltb_spec b 0), (Z.ltb_spec (- b) 0); cbn [negb]; lia. }
  destruct (Z.eq_dec a b) as [->|Hne].
  { rewrite Z.sub_diag. change (Number.of_Z 0) with (S754_zero false).
    rewrite of_Z_normal by lia.
    destruct (normal_of_Z_mantissa Number.prec H1 (Z.abs b)
                ltac:(change Number.prec with 53; lia)) as (Pm & Mm & Dm).
    unfold Number.sub, normal_of_Z. cbn [SFsub].
    change (IntDef.Z.min ?x ?x) with (Z.min x x). rewrite Z.min_id.
    rewrite Z.sub_diag. reflexivity. }
  rewrite !of_Z_normal by lia.
  apply (SFsub_exact Number.prec Number.emax H1 H2);
    change Number.prec with 53; lia.
Qed.

Lemma div_of_Z (q b : Z) :
  0 < b < 2 ^ 53 -> Z.abs (q * b) < 2 ^ 53 ->
  Number.div (Number.of_Z (q * b)) (Number.of_Z b) = Number.of_Z q.
Proof.
  intros Hb Hqb. destruct Number_spans as [H1 H2].
  destruct (Z.eq_dec q 0) as [->|Hq0].
  { cbn [Z.mul]. change (Number.of_Z 0) with (S754_zero false).
    rewrite of_Z_normal by lia.
    replace (b <? 0) with false by (symmetry; apply Z.ltb_ge; lia).
    reflexivity. }
  assert (Hq : Z.abs q < 2 ^ 53) by nia.
  rewrite !of_Z_normal by nia.
  replace (b <? 0) with false by (symmetry; apply Z.ltb_ge; lia).
  replace (q * b <? 0) with (q <? 0)
    by (destruct (Z.ltb_spec q 0), (Z.ltb_spec (q * b) 0); try reflexivity; nia).
  rewrite Z.abs_mul. replace (Z.abs b) with b by lia.
  apply (SFdiv_exact Number.prec Number.emax H1 H2);
    change Number.prec with 53; rewrite ?Z.abs_mul in *; nia.
Qed.

(** ** Dates, decoded *)

(** A time value is its day, hour, minute, second and millisecond. *)
Lemma time_fields (tv : Z) :
  Date.Day tv * Date.msPerDay + Date.HourFromTime tv * Date.msPerHour
  + Date.MinFromTime tv * Date.msPerMinute + Date.SecFromTime tv * Date.msPerSecond
  + Date.msFromTime tv = tv.
Proof.
  unfold Date.Day, Date.HourFromTime, Date.MinFromTime, Date.SecFromTime,
    Date.msFromTime, Date.msPerDay, Date.msPerHour, Date.msPerMinute,
    Date.msPerSecond.
  Z.div_mod_to_equations. lia.
Qed.

Lemma SecFromTime_shift (tv off : Z) :
  off mod 60000 = 0 -> Date.SecFromTime (tv + off) = Date.SecFromTime tv.
Proof.
  unfold Date.SecFromTime, Date.msPerSecond. intros Hoff.
  Z.div_mod_to_equations. lia.
Qed.

(** In a zone at a fixed whole number of minutes from UTC, [setSeconds]
    does what it does on UTC: it replaces the seconds and keeps the rest. *)
Lemma setSeconds_fixed_zone (off : Z) (tv : Z) (sec : Number.t) :
  off mod 60000 = 0 ->
  Date.setSeconds (fixed_zone off) (Some tv) sec
  = if Number.isFinite sec
    then Date.TimeClip (tv + (Number.truncate sec - Date.SecFromTime tv)
                             * Date.msPerSecond)
    else None.
Proof.
  intros Hoff. unfold Date.setSeconds, fixed_zone. cbn [LocalTZA].
  destruct (Number.isFinite sec); cbn [negb]; [|reflexivity].
  f_equal. pose proof (time_fields (tv + off)) as Hf.
  rewrite (SecFromTime_shift tv off Hoff) in Hf. lia.
Qed.

Lemma decodeDateStruct_fixed_zone (off : Z) (buffer : Buffer) (offset : Z) :
  off mod 60000 = 0 ->
  decodeDateStruct (fixed_zone off) buffer offset
  = let* seconds := readDoubleBE buffer (offset + 1) in
    Ok (if Number.isFinite seconds
        then Date.TimeClip (REFERENCE_DATE + 1000 * Number.truncate seconds)
        else None).
Proof.
  intros Hoff. unfold decodeDateStruct.
  destruct (readDoubleBE buffer (offset + 1)) as [seconds|err]; cbn [bind];
    [|reflexivity].
  rewrite base_seconds, base_date, sub_zero, setSeconds_fixed_zone by assumption.
  destruct (Number.isFinite seconds); [|reflexivity].
  do 2 f_equal. change (Date.SecFromTime 978307200000) with 0.
  change REFERENCE_DATE with 978307200000. unfold Date.msPerSecond. lia.
Qed.

Lemma readDoubleBE_payload (tag : Z) (x : Number.t) :
  valid_binary Number.prec Number.emax x = true ->
  readDoubleBE (tag :: be_bytes 8 (bits_of_float Number.prec Number.emax x)) 1
  = Ok x.
Proof.
  intros Hv. unfold readDoubleBE.
  pose proof (slice_payload tag (be_bytes 8 (bits_of_float Number.prec Number.emax x))
                [] 8 (be_bytes_length _ _)) as Hs.
  rewrite app_nil_r in Hs. rewrite Hs. cbn [bind].
  rewrite be_value_be_bytes, Z.mod_small.
  - now rewrite float_of_bits_of_float.
  - now apply (bits_of_float_range Number.prec Number.emax).
Qed.

(** The payload of a date on a whole second is that number of seconds. *)
Lemma secondsSinceReference_whole (k : Z) :
  Z.abs (REFERENCE_DATE + 1000 * k) <= 8640000000000000 ->
  secondsSinceReference (Some (REFERENCE_DATE + 1000 * k)) = Number.of_Z k.
Proof.
  change REFERENCE_DATE with 978307200000. intros Ht.
  unfold secondsSinceReference. cbn [Date.getTime].
  change REFERENCE_DATE with 978307200000.
  change (2 ^ 53) with 9007199254740992 in *.
  rewrite sub_of_Z by (change (2 ^ 53) with 9007199254740992; lia).
  replace (978307200000 + 1000 * k - 978307200000) with (k * 1000) by lia.
  apply div_of_Z; change (2 ^ 53) with 9007199254740992; lia.
Qed.

Lemma date_roundtrip_whole_seconds (off t : Z) :
  off mod 60000 = 0 ->
  Z.abs t <= 8640000000000000 ->
  t mod 1000 = 0 ->
  (let* buffer := encodeDateStruct (Some t) in
   decodeDateStruct (fixed_zone off) buffer 0)
  = Ok (Some t).
Proof.
  intros Hoff Ht Hms.
  assert (Hk : t = REFERENCE_DATE + 1000 * ((t - REFERENCE_DATE) / 1000)).
  { change REFERENCE_DATE with 978307200000. Z.div_mod_to_equations. lia. }
  set (k := (t - REFERENCE_DATE) / 1000) in *.
  rewrite encodeDateStruct_layout. cbn [bind].
  rewrite decodeDateStruct_fixed_zone by assumption.
  rewrite Hk at 1. rewrite secondsSinceReference_whole by (rewrite <- Hk; exact Ht).
  change (0 + 1) with 1. rewrite readDoubleBE_payload by apply of_Z_valid.
  cbn [bind].
  assert (Hkb : Z.abs k < 2 ^ 53).
  { change (2 ^ 53) with 9007199254740992.
    change REFERENCE_DATE with 978307200000 in Hk. lia. }
  destruct (truncate_of_Z k Hkb) as (-> & _ & ->).
  rewrite <- Hk. unfold Date.TimeClip.
  destruct (Z.gtb_spec (Z.abs t) 8640000000000000); [lia | reflexivity].
Qed.

Lemma date_roundtrip_fixed_zone_whole (off t : Z) :
  off mod 60000 = 0 ->
  (let* buffer := encodeDateStruct (Some t) in
   decodeDateStruct (fixed_zone off) buffer 0)
  = Ok (Some t) ->
  t mod 1000 = 0.
Proof.
  intros Hoff. rewrite encodeDateStruct_layout. cbn [bind].
  rewrite decodeDateStruct_fixed_zone by assumption.
  destruct (readDoubleBE _ (0 + 1)) as [x|err]; cbn [bind]; [|discriminate].
  destruct (Number.isFinite x); [|discriminate].
  generalize (Number.truncate x) as k. intros k H.
  assert (Hc : Date.TimeClip (REFERENCE_DATE + 1000 * k) = Some t) by congruence.
  apply TimeClip_Some in Hc. subst t.
  change REFERENCE_DATE with 978307200000.
  replace (978307200000 + 1000 * k) with (0 + (978307200 + k) * 1000) by lia.
  now rewrite Z.mod_add by lia.
Qed.

Lemma invalid_date_roundtrip (tz : TimeZone) :
  (let* buffer := encodeDateStruct None in decodeDateStruct tz buffer 0) = Ok None.
Proof.
  rewrite encodeDateStruct_layout. cbn [bind].
  change (secondsSinceReference None) with Number.NaN.
  unfold decodeDateStruct. change (0 + 1) with 1.
  rewrite readDoubleBE_payload by reflexivity. cbn [bind].
  rewrite base_date. reflexivity.
Qed.

(** X18: in a host whose zone lies at a fixed whole number of minutes from
    UTC, [decodeDateStruct] returns what it returns on UTC: the date
    [REFERENCE_DATE + 1000 * trunc(seconds)] milliseconds after 1970,
    where [seconds] is the double at [offset + 1], and an invalid date
    when [seconds] is NaN or infinite or the sum is out of the range of
    dates. *)
Theorem decodeDateStruct_in_fixed_zone (off : Z) (buffer : Buffer) (offset : Z) :
  off mod 60000 = 0 ->
  decodeDateStruct (fixed_zone off) buffer offset
  = decodeDateStruct UTC_zone buffer offset
  /\ decodeDateStruct UTC_zone buffer offset
     = let* seconds := readDoubleBE buffer (offset + 1) in
       Ok (if Number.isFinite seconds
           then Date.TimeClip (REFERENCE_DATE + 1000 * Number.truncate seconds)
           else None).
Proof.
  intros Hoff.
  assert (H0 : decodeDateStruct UTC_zone buffer offset
               = let* seconds := readDoubleBE buffer (offset + 1) in
                 Ok (if Number.isFinite seconds
                     then Date.TimeClip (REFERENCE_DATE + 1000 * Number.truncate seconds)
                     else None))
    by (apply (decodeDateStruct_fixed_zone 0); reflexivity).
  split; [|exact H0]. rewrite H0. now apply decodeDateStruct_fixed_zone.
Qed.

Lemma decodeDateStruct_in_fixed_zone_witness :
  (-18000000) mod 60000 = 0
  /\ decodeDateStruct (fixed_zone (-18000000)) [0x33; 0x41; 0xC6; 0x84; 0x07; 0xB5; 0; 0; 0] 0
     = decodeDateStruct UTC_zone [0x33; 0x41; 0xC6; 0x84; 0x07; 0xB5; 0; 0; 0] 0
  /\ decodeDateStruct UTC_zone [0x33; 0x41; 0xC6; 0x84; 0x07; 0xB5; 0; 0; 0] 0
     = let* seconds := readDoubleBE [0x33; 0x41; 0xC6; 0x84; 0x07; 0xB5; 0; 0; 0] (0 + 1) in
       Ok (if Number.isFinite seconds
           then Date.TimeClip (REFERENCE_DATE + 1000 * Number.truncate seconds)
           else None).
Proof.
  assert (H : (-18000000) mod 60000 = 0) by reflexivity.
  exact (conj H (decodeDateStruct_in_fixed_zone (-18000000)
                   [0x33; 0x41; 0xC6; 0x84; 0x07; 0xB5; 0; 0; 0] 0 H)).
Defined.

(** X19: which dates survive [encodeDateStruct] and [decodeDateStruct], in
    a host whose zone lies at a fixed whole number of minutes from UTC:
    exactly the dates on a whole second, and the invalid date.  The
    subtraction and the division of [encodeDateStruct] are exact on them;
    a date with milliseconds comes back changed. *)
Theorem encodeDateStruct_decodeDateStruct_roundtrip (off : Z) (d : Date.t) :
  off mod 60000 = 0 ->
  valid_date d ->
  (let* buffer := encodeDateStruct d in decodeDateStruct (fixed_zone off) buffer 0)
  = Ok d
  <-> on_whole_second d.
Proof.
  intros Hoff Hd. destruct d as [t|]; cbn [valid_date on_whole_second] in *.
  - split.
    + now apply date_roundtrip_fixed_zone_whole.
    + now apply date_roundtrip_whole_seconds.
  - split; [trivial|]. intros _. apply invalid_date_roundtrip.
Qed.

Lemma encodeDateStruct_decodeDateStruct_roundtrip_witness :
  3600000 mod 60000 = 0
  /\ valid_date (Some 1733810154000)
  /\ ((let* buffer := encodeDateStruct (Some 1733810154000) in
       decodeDateStruct (fixed_zone 3600000) buffer 0)
      = Ok (Some 1733810154000)
      <-> on_whole_second (Some 1733810154000)).
Proof.
  assert (H1 : 3600000 mod 60000 = 0) by reflexivity.
  assert (H2 : valid_date (Some 1733810154000)) by (vm_compute; discriminate).
  exact (conj H1 (conj H2
           (encodeDateStruct_decodeDateStruct_roundtrip 3600000
              (Some 1733810154000) H1 H2))).
Defined.

(** ** Safe integers *)

(** X20: an integer of magnitude below [2^53] is treated alike as a number
    and as a bigint: [calculateIntSize] returns the same for both, and
    [encodeType] of the number gives a tag with high nibble 1 and low
    nibble [k], followed by [2^k] bytes from which [decodeInt] with the
    size [2^k] reads the integer back. *)
Theorem safe_integer_roundtrip (k : Z) :
  Z.abs k < 2 ^ 53 ->
  calculateIntSize (Num (Number.of_Z k)) = calculateIntSize (Big k)
  /\ exists tag bytes,
       encodeType (JNumber (Number.of_Z k)) = Ok (tag :: bytes)
       /\ high_nibble tag = 1
       /\ Z.of_nat (length bytes) = 2 ^ low_nibble tag
       /\ decodeInt bytes (2 ^ low_nibble tag) = Ok k.
Proof.
  intros Hk. destruct (truncate_of_Z k Hk) as (Ht & Hint & _).
  split.
  - rewrite calculateIntSize_number by assumption. now rewrite Ht.
  - assert (Hv : Z.abs (Number.truncate (Number.of_Z k)) < 2 ^ 63).
    { rewrite Ht. change (2 ^ 63) with 9223372036854775808.
      change (2 ^ 53) with 9007199254740992 in Hk. lia. }
    destruct (encodeType_integer_sized _ Hint Hv) as (w & Hw & Hfit & E).
    destruct (integer_tag w Hw) as (Hh & Hl & Hp).
    rewrite Ht in *.
    eexists _, _. split; [exact E|]. split; [exact Hh|].
    rewrite Hp. destruct (width_of_nat w Hw) as (n & Hn & ->).
    rewrite Nat2Z.id, be_bytes_length. split; [reflexivity|].
    now apply decodeInt_width.
Qed.

Lemma safe_integer_roundtrip_witness :
  Z.abs (-32769) < 2 ^ 53
  /\ calculateIntSize (Num (Number.of_Z (-32769))) = calculateIntSize (Big (-32769))
  /\ exists tag bytes,
       encodeType (JNumber (Number.of_Z (-32769))) = Ok (tag :: bytes)
       /\ high_nibble tag = 1
       /\ Z.of_nat (length bytes) = 2 ^ low_nibble tag
       /\ decodeInt bytes (2 ^ low_nibble tag) = Ok (-32769).
Proof.
  assert (H : Z.abs (-32769) < 2 ^ 53) by reflexivity.
  exact (conj H (safe_integer_roundtrip (-32769) H)).
Defined.

(** ** [removeBitsAndRead] *)

Lemma nibble_split_all : forallb nibble_split_check byte_values = true.
Proof. vm_compute. reflexivity. Qed.

Lemma nibble_split (b : Z) :
  0 <= b < 256 ->
  js_and (js_sar b 4) 0xF = b / 16 /\ js_and b 0xF = b mod 16
  /\ Z.land (js_and b 0xF) 0xFF = b mod 16.
Proof.
  intros Hb. pose proof nibble_split_all as H.
  rewrite forallb_forall in H. specialize (H b (byte_In b Hb)).
  unfold nibble_split_check in H.
  repeat (apply andb_prop in H; destruct H as [H ?]).
  repeat match goal with
         | H : (_ =? _) = true |- _ => apply Z.eqb_eq in H
         end.
  repeat split; congruence.
Qed.

(** X21: [removeBitsAndRead] splits the big-endian number spelt by the
    first [size] bytes of a buffer into its four leading bits and the
    rest: [extractedBits] is the high nibble of the first byte, [result]
    is below [2^(8*size-4)], and
    [extractedBits * 2^(8*size-4) + result] is that number. *)
Theorem removeBitsAndRead_splits (first : Z) (rest : Buffer) (size : Z) :
  In size [1; 2; 4; 8] ->
  Forall (fun b => 0 <= b < 256) (first :: rest) ->
  size <= Z.of_nat (length (first :: rest)) ->
  exists extractedBits result,
    removeBitsAndRead (first :: rest) size = Ok (extractedBits, Some result)
    /\ extractedBits = high_nibble first
    /\ 0 <= extractedBits <= 15
    /\ 0 <= result < 2 ^ (8 * size - 4)
    /\ extractedBits * 2 ^ (8 * size - 4) + result
       = be_value (firstn (Z.to_nat size) (first :: rest)).
Proof.
  intros Hsize Hb Hlen.
  inversion Hb as [|? ? Hfirst Hrest]; subst.
  destruct (nibble_split first Hfirst) as (Hhi & Hlo & Hlo').
  destruct (width_of_nat size Hsize) as (n & Hn & ->).
  assert (Hmod : Buffer_from (js_and first 0xF :: skipn 1 (first :: rest))
                 = first mod 16 :: rest).
  { cbn [skipn]. unfold Buffer_from. cbn [map]. rewrite Hlo'.
    fold (Buffer_from rest). now rewrite Buffer_from_bytes. }
  assert (Hread : forall k, (0 < k)%nat -> (k <= S (length rest))%nat ->
            readUIntBE k (first mod 16 :: rest) 0
            = Ok (first mod 16 * 256 ^ Z.of_nat (k - 1)
                  + be_value (firstn (k - 1) rest))).
  { intros k Hk Hkl. unfold readUIntBE, slice. cbn [length].
    replace ((0 <? 0) || (Z.of_nat (S (length rest)) <? 0 + Z.of_nat k))
      with false
      by (symmetry; apply orb_false_intro; [reflexivity | apply Z.ltb_ge; lia]).
    cbn [Z.to_nat skipn bind]. destruct k as [|k]; [lia|].
    cbn [firstn]. rewrite be_value_cons, length_firstn.
    replace (S k - 1)%nat with k by lia.
    now rewrite Nat.min_l by lia. }
  assert (Hres : removeBitsAndRead (first :: rest) (Z.of_nat n)
                 = Ok (first / 16,
                       Some (first mod 16 * 256 ^ Z.of_nat (n - 1)
                             + be_value (firstn (n - 1) rest)))).
  { unfold removeBitsAndRead. cbn [nth]. rewrite Hmod, Hhi.
    cbn [length] in Hlen. simpl in Hn.
    destruct Hn as [<-|[<-|[<-|[<-|[]]]]];
      cbn [Z.of_nat Pos.of_succ_nat Pos.succ existsb Z.eqb Pos.eqb orb negb];
      rewrite Hread by (cbn in Hlen |- *; lia); reflexivity. }
  eexists _, _. split; [exact Hres|].
  assert (Hn1 : (1 <= n)%nat) by (simpl in Hn; destruct Hn as [<-|[<-|[<-|[<-|[]]]]]; lia).
  assert (Hpow : 2 ^ (8 * Z.of_nat n - 4) = 16 * 256 ^ Z.of_nat (n - 1)).
  { rewrite pow256 by lia. change 16 with (2 ^ 4).
    rewrite <- Z.pow_add_r by lia. f_equal. lia. }
  assert (Hp : 0 < 256 ^ Z.of_nat (n - 1)) by (apply Z.pow_pos_nonneg; lia).
  assert (Hr : 0 <= be_value (firstn (n - 1) rest) < 256 ^ Z.of_nat (n - 1)).
  { pose proof (be_value_range (firstn (n - 1) rest)) as Hr.
    cbn [length] in Hlen.
    rewrite length_firstn, Nat.min_l in Hr by lia.
    apply Hr. now apply Forall_firstn_bytes. }
  assert (Hdm : first = 16 * (first / 16) + first mod 16) by (apply Z.div_mod; lia).
  assert (Hm : 0 <= first mod 16 < 16) by (apply Z.mod_pos_bound; lia).
  assert (Hd : 0 <= first / 16 <= 15).
  { split; [apply Z.div_pos; lia|].
    assert (first / 16 < 16) by (apply Z.div_lt_upper_bound; lia). lia. }
  split; [unfold high_nibble; now rewrite Z.shiftr_div_pow2 by lia|].
  split; [exact Hd|]. rewrite Hpow. split; [nia|].
  rewrite Nat2Z.id. destruct n as [|k]; [lia|]. cbn [firstn].
  rewrite be_value_cons, length_firstn.
  replace (S k - 1)%nat with k by lia. cbn [length] in Hlen.
  rewrite Nat.min_l by lia.
  rewrite Hdm at 3. ring.
Qed.

Lemma removeBitsAndRead_splits_witness :
  In 2 [1; 2; 4; 8]
  /\ Forall (fun b => 0 <= b < 256) (0x5F :: [0x10; 0xC8])
  /\ 2 <= Z.of_nat (length (0x5F :: [0x10; 0xC8]))
  /\ exists extractedBits result,
       removeBitsAndRead (0x5F :: [0x10; 0xC8]) 2 = Ok (extractedBits, Some result)
       /\ extractedBits = high_nibble 0x5F
       /\ 0 <= extractedBits <= 15
       /\ 0 <= result < 2 ^ (8 * 2 - 4)
       /\ extractedBits * 2 ^ (8 * 2 - 4) + result
          = be_value (firstn (Z.to_nat 2) (0x5F :: [0x10; 0xC8])).
Proof.
  assert (H1 : In 2 [1; 2; 4; 8]) by (simpl; auto).
  assert (H2 : Forall (fun b => 0 <= b < 256) (0x5F :: [0x10; 0xC8]))
    by (repeat constructor; lia).
  assert (H3 : 2 <= Z.of_nat (length (0x5F :: [0x10; 0xC8])))
    by (vm_compute; discriminate).
  exact (conj H1 (conj H2 (conj H3
           (removeBitsAndRead_splits 0x5F [0x10; 0xC8] 2 H1 H2 H3)))).
Defined.

(** ** The XML encoder *)

(** The part at which the traversal stops is a part of the value, and one
    without a tag; there is none exactly in a supported value. *)
Lemma first_unsupported_part (v part : JsValue) :
  first_unsupported v = Some part ->
  part_of part v /\ supported part = false.
Proof.
  revert part.
  induction v as [| |b|x|n|s|d|n|d|b|items IH|items IH|entries IH]
    using JsValue_nested_ind; intros part; cbn [first_unsupported];
    try discriminate;
    try (intros E; injection E as <-; split; constructor).
  - match goal with
    | |- ?f items = Some part -> _ => set (first := f)
    end.
    intros E.
    assert (H : exists item, In item items /\ part_of part item
                             /\ supported part = false).
    { revert E. subst first.
      induction IH as [|item l Hitem Hl IHl]; [discriminate|].
      destruct (first_unsupported item) as [p|] eqn:Ep.
      - intros E. injection E as ->.
        destruct (Hitem part eq_refl) as (Hp & Hs).
        exists item. split; [now left|]. split; assumption.
      - intros E. destruct (IHl E) as (item' & Hin & Hp & Hs).
        exists item'. split; [now right|]. split; assumption. }
    destruct H as (item & Hin & Hp & Hs).
    split; [exact (part_item part items item Hin Hp) | exact Hs].
  - match goal with
    | |- ?f entries = Some part -> _ => set (first := f)
    end.
    intros E.
    assert (H : exists key val, In (key, val) entries /\ part_of part val
                                /\ supported part = false).
    { revert E. subst first.
      induction IH as [|[key item] l Hitem Hl IHl]; [discriminate|].
      cbn [snd] in Hitem.
      destruct (first_unsupported item) as [p|] eqn:Ep.
      - intros E. injection E as ->.
        destruct (Hitem part eq_refl) as (Hp & Hs).
        exists key, item. split; [now left|]. split; assumption.
      - intros E. destruct (IHl E) as (key' & val' & Hin & Hp & Hs).
        exists key', val'. split; [now right|]. split; assumption. }
    destruct H as (key & val & Hin & Hp & Hs).
    split; [exact (part_entry part entries key val Hin Hp) | exact Hs].
Qed.

Lemma first_unsupported_supported (v : JsValue) :
  first_unsupported v = None <-> supported v = true.
Proof.
  induction v as [| |b|x|n|s|d|n|d|b|items IH|items IH|entries IH]
    using JsValue_nested_ind; cbn [first_unsupported supported];
    try (split; [reflexivity | reflexivity]);
    try (split; discriminate).
  - induction IH as [|item l Hitem Hl IHl]; [split; reflexivity|].
    cbn [forallb]. rewrite andb_true_iff, <- Hitem, <- IHl.
    destruct (first_unsupported item); split;
      try discriminate; try tauto;
      intros [E _]; discriminate E.
  - induction IH as [|[key item] l Hitem Hl IHl]; [split; reflexivity|].
    cbn [forallb snd] in *. rewrite andb_true_iff, <- Hitem, <- IHl.
    destruct (first_unsupported item); split;
      try discriminate; try tauto;
      intros [E _]; discriminate E.
Qed.

Section PlistFacts.

Variable Number_toString : Number.t -> JsString.
Variable base64 : Buffer -> JsString.

Local Abbreviation encodeValue' := (encodeValue Number_toString base64).
Local Abbreviation encodePlist' := (encodePlist Number_toString base64).

(** [encodeValue] returns when no part lacks a tag, and otherwise throws
    the error of the first part that does. *)
Lemma encodeValue_outcome (v : JsValue) :
  match encodeValue' v with
  | Ok _ => first_unsupported v = None
  | Throw e => exists part, first_unsupported v = Some part /\ part_error part e
  end.
Proof.
  induction v as [| |b|x|n|s|d|n|d|b|items IH|items IH|entries IH]
    using JsValue_nested_ind; cbn [encodeValue first_unsupported typeof];
    try reflexivity;
    try (eexists; split; [reflexivity|]; cbn [part_error typeof]; reflexivity).
  - eexists. split; [reflexivity|]. cbn [part_error]. eexists. reflexivity.
  - match goal with
    | |- context [bind ?m _] => set (mapped := m)
    end.
    match goal with
    | |- context [?f items = None] => set (first := f) in *
    end.
    assert (Hm : match mapped with
                 | Ok _ => first items = None
                 | Throw e => exists part, first items = Some part /\ part_error part e
                 end).
    { subst mapped first.
      induction IH as [|item l Hitem Hl IHl]; [reflexivity|].
      destruct (encodeValue' item) as [part|e]; cbn [bind].
      - rewrite Hitem.
        match goal with
        | |- context [bind ?m _] => destruct m as [parts|e]
        end; cbn [bind]; exact IHl.
      - destruct Hitem as (part & -> & He). exists part. split; [reflexivity | exact He]. }
    destruct mapped as [parts|e]; cbn [bind]; exact Hm.
  - match goal with
    | |- context [bind ?m _] => set (mapped := m)
    end.
    match goal with
    | |- context [?f entries = None] => set (first := f) in *
    end.
    assert (Hm : match mapped with
                 | Ok _ => first entries = None
                 | Throw e => exists part, first entries = Some part /\ part_error part e
                 end).
    { subst mapped first.
      induction IH as [|[key item] l Hitem Hl IHl]; [reflexivity|].
      cbn [snd] in *.
      destruct (encodeValue' item) as [part|e]; cbn [bind].
      - rewrite Hitem.
        match goal with
        | |- context [bind ?m _] => destruct m as [parts|e]
        end; cbn [bind]; exact IHl.
      - destruct Hitem as (part & -> & He). exists part. split; [reflexivity | exact He]. }
    destruct mapped as [parts|e]; cbn [bind]; exact Hm.
Qed.

(** X22: when [encodePlist] succeeds and how it fails.  It returns a
    document exactly when the value holds, at every depth of its arrays
    and objects, only strings, numbers, booleans, buffers, arrays and
    objects (dates and sets count as objects); the document is then the
    prolog, the encoded value and [</plist>].  Otherwise it throws: for
    [null] itself the "Input must be a valid JavaScript object." [Error];
    for any other value the error of the first part, in the order of the
    traversal, that has no tag: the "Unsupported data type" [Error] naming
    the [typeof] of that part when it is [undefined], a bigint, a symbol
    or a function, and the [TypeError] of [Object.entries], not that
    [Error], when it is a [null] inside an array or an object. *)
Theorem encodePlist_outcome (value : JsValue) :
  match encodePlist' value with
  | Ok xml =>
      supported value = true
      /\ exists body,
           encodeValue' value = Ok body
           /\ xml = plist_prolog ++ body ++ units "</plist>"
  | Throw e =>
      supported value = false
      /\ match value with
         | JNull => e = Error "Input must be a valid JavaScript object."
         | _ =>
             exists part,
               first_unsupported value = Some part
               /\ part_of part value
               /\ supported part = false
               /\ match part with
                  | JNull => exists msg, e = TypeError msg
                  | _ => e = Error ("Unsupported data type: " ++ typeof part)
                  end
         end
  end.
Proof.
  pose proof (encodeValue_outcome value) as H.
  assert (Hthrow : forall e,
    encodeValue' value = Throw e ->
    supported value = false
    /\ exists part,
         first_unsupported value = Some part
         /\ part_of part value
         /\ supported part = false
         /\ part_error part e).
  { intros e E. rewrite E in H. destruct H as (part & Hf & He).
    destruct (first_unsupported_part value part Hf) as (Hp & Hs).
    split.
    - destruct (supported value) eqn:Hsup; [|reflexivity].
      apply first_unsupported_supported in Hsup. congruence.
    - exists part. repeat split; assumption. }
  assert (Hok : forall body,
    encodeValue' value = Ok body -> supported value = true).
  { intros body E. rewrite E in H. now apply first_unsupported_supported. }
  destruct value as [| |b|x|n|s|d|n|d|b|items|items|entries];
    try (split; reflexivity);
    unfold encodePlist;
    destruct (encodeValue' _) as [body|e] eqn:E; cbn [bind];
    try (split; [exact (Hok body eq_refl)|]; exists body; split; reflexivity);
    exact (Hthrow e eq_refl).
Qed.

(** X23: [encodePlist] loses information: a string is written between
    [<string>] and [</string>] as it is, with no character escaped, so an
    array of two strings and an array of a single string holding markup
    give the same document; and a date or a set is written as the empty
    dictionary, as an object without properties is. *)
Theorem encodePlist_not_injective (a b : JsString) :
  JArray [JString a; JString b]
  <> JArray [JString (a ++ units "</string><string>" ++ b)]
  /\ encodePlist' (JArray [JString a; JString b])
     = encodePlist' (JArray [JString (a ++ units "</string><string>" ++ b)])
  /\ (forall d, encodePlist' (JDate d) = encodePlist' (JObject []))
  /\ (forall items, encodePlist' (JSet items) = encodePlist' (JObject [])).
Proof.
  split; [discriminate|]. split; [|split; reflexivity].
  unfold encodePlist. cbn [encodeValue bind parseTag concat].
  do 2 f_equal. f_equal. f_equal. f_equal.
  rewrite !app_nil_r.
  change (units "</string><string>") with (units "</string>" ++ units "<string>").
  now rewrite <- !app_assoc.
Qed.

End PlistFacts.
